(** * The workload generator of bokii2/pvo: request executor and coordinator

    A shallow embedding of [src/workload_generator.py].  The harness sends
    batches of concurrent HTTP requests to a service, retries failed
    attempts, and reduces the outcomes of a batch to a summary.

    What the Python code takes from its surroundings is made explicit:
    - the clock ([time.time], [time.sleep]) is a rational number of seconds
      kept in the state;
    - the target service, the network and the [requests] library are a
      script that says, for every attempt, how long it takes and what
      [requests.get] gives: a response, whose body may decode to any JSON
      value, or an exception of any class;
    - [matplotlib.pyplot] is a function that says, for every call the
      harness makes, whether it returns or raises;
    - a raised exception is a result of its own, so that "never raises" is a
      statement and not a property of the typing;
    - [float] arithmetic is done in [Q], exactly. *)

From Stdlib Require Import ZArith QArith Qround Qminmax List Ascii String Bool Lia Lqa.
From Stdlib Require Import Permutation DecimalString.
Import ListNotations.

Open Scope Z_scope.

(** ** Python values and exceptions *)

(** The classes of exception the harness can meet.  The first five live in
    [requests.exceptions] and derive from [RequestException]
    ([JSONDecodeError] through [InvalidJSONError]); the others are builtins. *)
Inductive ExcClass : Type :=
| HTTPError
| ConnectionError
| Timeout
| JSONDecodeError
| MissingSchema
| ValueError
| ZeroDivisionError
| AttributeError
| StatisticsError
| KeyboardInterrupt.

Record PyExc : Type := mkExc { exc_class : ExcClass; exc_msg : string }.

(** [str(e)] *)
Definition str (e : PyExc) : string := exc_msg e.

(** [isinstance(e, requests.exceptions.RequestException)] *)
Definition isinstance_RequestException (e : PyExc) : bool :=
  match exc_class e with
  | HTTPError | ConnectionError | Timeout | JSONDecodeError | MissingSchema => true
  | ValueError | ZeroDivisionError | AttributeError | StatisticsError
  | KeyboardInterrupt => false
  end.

(** A JSON value as Python holds it once decoded: [JNull] is [None], an
    object is a [dict], an array a [list]. *)
#[warnings="-register-all"]
Inductive JSON : Type :=
| JNull
| JBool (b : bool)
| JNum (q : Q)
| JStr (s : string)
| JArr (items : list JSON)
| JObj (members : list (string * JSON)).

Definition Dict : Type := list (string * JSON).

(** ** The state-and-exception monad

    A computation runs on a state [S] and either returns a value or raises;
    the state it leaves is kept in both cases. *)

Inductive Res (A : Type) : Type :=
| Ok (a : A)
| Raise (e : PyExc).
Arguments Ok {A} a.
Arguments Raise {A} e.

Definition M (S A : Type) : Type := S -> Res A * S.

Definition ret {S A} (a : A) : M S A := fun s => (Ok a, s).

Definition raise {S A} (e : PyExc) : M S A := fun s => (Raise e, s).

Definition bind {S A B} (m : M S A) (k : A -> M S B) : M S B :=
  fun s =>
    match m s with
    | (Ok a, s') => k a s'
    | (Raise e, s') => (Raise e, s')
    end.

(** [try: body  except RequestException as e: handler e] *)
Definition try_except {S A} (body : M S A) (handler : PyExc -> M S A) : M S A :=
  fun s =>
    match body s with
    | (Ok a, s') => (Ok a, s')
    | (Raise e, s') =>
        if isinstance_RequestException e then handler e s' else (Raise e, s')
    end.

Declare Scope py_scope.
Delimit Scope py_scope with py.
Notation "x <- m ;; k" := (bind m (fun x => k))
  (at level 100, m at next level, right associativity) : py_scope.
Notation "m ;;; k" := (bind m (fun _ => k))
  (at level 100, right associativity) : py_scope.
Open Scope py_scope.

(** ** Configuration and records *)

(** The global [CONFIG] dictionary, read by every function. *)
Record Config : Type := mkConfig {
  BASE_URL : string;
  DEFAULT_N_VALUE : Z;
  REQUEST_COUNTS : list Z;
  TIMEOUT : Z;
  MAX_RETRIES : Z
}.

Definition CONFIG : Config :=
  {| BASE_URL := "IP_OF_THE_VM";
     DEFAULT_N_VALUE := 100000;
     REQUEST_COUNTS := [1; 10; 50; 100; 200; 300; 400; 500; 600; 700; 800; 900; 1000];
     TIMEOUT := 30;
     MAX_RETRIES := 3 |}.

(** [RequestResult].  [response_data] holds what [response.json()] gave, of
    whatever shape (the annotation [Dict] is not enforced), or [None], which
    is [JNull]; an [error] that is [None] is [None] here. *)
Record RequestResult : Type := mkRequestResult {
  response_data : JSON;
  execution_time : Q;
  success : bool;
  error : option string
}.

(** [WorkloadResult].  [avg_calculation_time] is an optional number so that a
    summary holding [None] there can be told from one holding [0]. *)
Record WorkloadResult : Type := mkWorkloadResult {
  total_time : Q;
  throughput : Q;
  avg_calculation_time : option Q;
  request_count : Z;
  success_rate : Q;
  latencies : list Q
}.

(** ** The network and the clock, as one call sees them *)

Record Response : Type := mkResponse {
  status_code : Z;
  reason : string;
  body : option JSON;         (* [None]: the body is not valid JSON *)
  json_error : string         (* what the decoder says of such a body *)
}.

(** What [requests.get] does on one attempt. *)
Inductive GetOutcome : Type :=
| GotResponse (r : Response)
| GetRaised (e : PyExc).

Record Attempt : Type := mkAttempt {
  took : Q;                   (* seconds spent in the attempt *)
  outcome : GetOutcome
}.

(** The script of one logical call: its k-th attempt (from 0) for a given
    url, parameter and timeout, and by how much the k-th [time.sleep]
    oversleeps. *)
Record CallEnv : Type := mkCallEnv {
  attempt_of : string -> Z -> Z -> nat -> Attempt;
  lag : nat -> Q
}.

Inductive Event : Type :=
| EvGet (url : string) (n : Z) (timeout : Z)
| EvSleep (secs : Q).

(** The state of the thread that runs one call. *)
Record Thread : Type := mkThread {
  clock : Q;
  attempts : nat;             (* [requests.get] calls made so far *)
  sleeps : nat;               (* [time.sleep] calls made so far *)
  log : list Event            (* what was done, oldest first *)
}.

Section Call.

Variable ce : CallEnv.

(** [time.time()] *)
Definition time_time : M Thread Q := fun t => (Ok (clock t), t).

(** [time.sleep(secs)] *)
Definition time_sleep (secs : Q) : M Thread unit := fun t =>
  (Ok tt, {| clock := clock t + secs + lag ce (sleeps t);
             attempts := attempts t;
             sleeps := S (sleeps t);
             log := log t ++ [EvSleep secs] |}).

(** [requests.get(url, params={'n': n}, timeout=timeout)] *)
Definition requests_get (url : string) (n timeout : Z) : M Thread Response := fun t =>
  let a := attempt_of ce url n timeout (attempts t) in
  let t' := {| clock := clock t + took a;
               attempts := S (attempts t);
               sleeps := sleeps t;
               log := log t ++ [EvGet url n timeout] |} in
  match outcome a with
  | GotResponse r => (Ok r, t')
  | GetRaised e => (Raise e, t')
  end.

End Call.

(** The decimal writing of an integer, as an f-string prints it. *)
Definition string_of_Z (z : Z) : string := NilEmpty.string_of_int (Z.to_int z).

(** [response.raise_for_status()]: a 4xx or 5xx status raises [HTTPError]. *)
Definition raise_for_status {S} (url : string) (r : Response) : M S unit :=
  if (400 <=? status_code r) && (status_code r <? 500) then
    raise (mkExc HTTPError
             (string_of_Z (status_code r) ++ " Client Error: " ++ reason r
                ++ " for url: " ++ url))
  else if (500 <=? status_code r) && (status_code r <? 600) then
    raise (mkExc HTTPError
             (string_of_Z (status_code r) ++ " Server Error: " ++ reason r
                ++ " for url: " ++ url))
  else ret tt.

(** [response.json()]: the decoded body, [None] for a body that reads
    [null]; a body that is not JSON raises. *)
Definition response_json {S} (r : Response) : M S JSON :=
  match body r with
  | Some d => ret d
  | None => raise (mkExc JSONDecodeError (json_error r))
  end.

(** [range(n)] *)
Definition range (n : Z) : list Z := map Z.of_nat (seq 0 (Z.to_nat n)).

(** ** send_request *)

Section SendRequest.

Variable cfg : Config.
Variable ce : CallEnv.

Definition sum_url : string := BASE_URL cfg ++ "/sum".

(** The body of the [try]: one attempt, and the result built from it. *)
Definition send_request_try (n timeout : Z) (start_time : Q)
  : M Thread (option RequestResult) :=
  response <- requests_get ce sum_url n timeout ;;
  raise_for_status sum_url response ;;;
  data <- response_json response ;;
  now <- time_time ;;
  ret (Some {| response_data := data;
               execution_time := now - start_time;
               success := true;
               error := None |}).

(** [for attempt in range(MAX_RETRIES)]: the function returns from inside the
    loop; when the loop runs out, the function falls off its end and returns
    [None]. *)
Fixpoint send_request_loop (n timeout : Z) (start_time : Q) (todo : list Z)
  : M Thread (option RequestResult) :=
  match todo with
  | [] => ret None
  | attempt :: rest =>
      try_except (send_request_try n timeout start_time)
        (fun e =>
           if attempt =? MAX_RETRIES cfg - 1 then
             now <- time_time ;;
             ret (Some {| response_data := JNull;
                          execution_time := now - start_time;
                          success := false;
                          error := Some (str e) |})
           else
             time_sleep ce 1 ;;;
             send_request_loop n timeout start_time rest)
  end.

Definition send_request (n timeout : Z) : M Thread (option RequestResult) :=
  start_time <- time_time ;;
  send_request_loop n timeout start_time (range (MAX_RETRIES cfg)).

End SendRequest.

(** A thread that starts at time [t0]. *)
Definition fresh_thread (t0 : Q) : Thread :=
  {| clock := t0; attempts := 0; sleeps := 0; log := [] |}.

(** ** The coordinator *)

(** The state of the main thread: the clock, the number of [requests.get]
    calls made so far by all the workers, and the number of worker pools
    created so far. *)
Record World : Type := mkWorld {
  now : Q;
  requests : nat;
  pools : nat
}.

(** What one batch meets: the script of each of its calls, and the order in
    which [as_completed] hands the futures back, as a list of picks among
    the futures still pending. *)
Record BatchEnv : Type := mkBatchEnv {
  call_env : nat -> CallEnv;
  picks : list nat
}.

(** The environment of a run: the batch met by the k-th pool. *)
Definition Env : Type := nat -> BatchEnv.

(** A future, once its call has run: what [result()] gives, when the call
    ended and how many requests it made. *)
Record Future : Type := mkFuture {
  outcome_of : Res (option RequestResult);
  finished_at : Q;
  gets : nat
}.

Fixpoint remove_nth {A} (i : nat) (l : list A) : list A :=
  match l, i with
  | [], _ => []
  | _ :: xs, O => xs
  | x :: xs, S j => x :: remove_nth j xs
  end.

(** [concurrent.futures.as_completed(futures)]: every future exactly once,
    in the order the picks choose. *)
Fixpoint as_completed {A} (choice : list nat) (pending : list A) : list A :=
  match choice with
  | [] => pending
  | p :: ps =>
      match pending with
      | [] => []
      | x :: _ =>
          let i := (p mod List.length pending)%nat in
          nth i pending x :: as_completed ps (remove_nth i pending)
      end
  end.

(** A list comprehension whose element expression has effects. *)
Fixpoint for_each {S A B} (f : A -> M S B) (l : list A) : M S (list B) :=
  match l with
  | [] => ret []
  | x :: xs => y <- f x ;; ys <- for_each f xs ;; ret (y :: ys)
  end.

(** [try: body  finally: cleanup] *)
Definition finally {S A} (body : M S A) (cleanup : M S unit) : M S A :=
  fun s =>
    match body s with
    | (r, s') =>
        match cleanup s' with
        | (Ok _, s'') => (r, s'')
        | (Raise e, s'') => (Raise e, s'')
        end
    end.

(** [a / b] on integers *)
Definition truediv {S} (a b : Z) : M S Q :=
  if b =? 0 then raise (mkExc ZeroDivisionError "division by zero")
  else ret (inject_Z a / inject_Z b)%Q.

(** [a / b] on floats *)
Definition float_div {S} (a b : Q) : M S Q :=
  if Qeq_bool b 0%Q then raise (mkExc ZeroDivisionError "float division by zero")
  else ret (a / b)%Q.

Definition Qsum (l : list Q) : Q := fold_right Qplus 0%Q l.

(** [statistics.mean(data)] *)
Definition statistics_mean {S} (data : list Q) : M S Q :=
  match data with
  | [] => raise (mkExc StatisticsError "mean requires at least one data point")
  | _ => ret (Qsum data / inject_Z (Z.of_nat (List.length data)))%Q
  end.

(** [round(x)] to an integer: to the nearest, and to the even one on a tie. *)
Definition py_round (x : Q) : Z :=
  let f := Qfloor x in
  match (x - inject_Z f ?= 1 # 2)%Q with
  | Lt => f
  | Gt => f + 1
  | Eq => if Z.even f then f else f + 1
  end.

(** [[r for r in results if r.success]]: reading [.success] of [None] raises. *)
Fixpoint successful {S} (results : list (option RequestResult))
  : M S (list RequestResult) :=
  match results with
  | [] => ret []
  | None :: _ =>
      raise (mkExc AttributeError "'NoneType' object has no attribute 'success'")
  | Some r :: rest =>
      if success r then (tl <- successful rest ;; ret (r :: tl))
      else successful rest
  end.

(** The calls of [matplotlib.pyplot] that the harness makes, with the
    arguments it gives them ([figsize], [marker], [labels], [rotation], [ha]
    and [va] are the keywords of the source). *)
Inductive PltCall : Type :=
| plt_figure (width height : Z)
| plt_subplot (position : Z)
| plt_plot (xs : list Z) (ys : list Q) (marker : string)
| plt_title (label : string)
| plt_xlabel (label : string)
| plt_ylabel (label : string)
| plt_grid (visible : bool)
| plt_boxplot (data : list (list Q)) (labels : list string)
| plt_xticks (rotation : Z)
| plt_text (x y : Q) (s ha va : string)
| plt_tight_layout
| plt_show.

(** The plotting library as the harness meets it: what a call does, [None]
    when it returns and [Some e] when it raises [e]. *)
Definition Pyplot : Type := PltCall -> option PyExc.

Section Coordinator.

Variable cfg : Config.
Variable env : Env.
Variable plt : Pyplot.

Definition world_time : M World Q := fun w => (Ok (now w), w).

(** [ThreadPoolExecutor(max_workers=...)]: refuses a size that is not
    positive; gives the number of the pool. *)
Definition ThreadPoolExecutor (max_workers : Z) : M World nat := fun w =>
  if max_workers <=? 0 then
    (Raise (mkExc ValueError "max_workers must be greater than 0"), w)
  else
    (Ok (pools w), {| now := now w; requests := requests w; pools := S (pools w) |}).

(** [executor.submit(send_request, n)] for the i-th call of the batch: the
    call runs in a thread of its own, from the time of the submission, with
    the default [timeout]. *)
Definition submit (be : BatchEnv) (n : Z) (i : nat) : M World Future := fun w =>
  let '(r, t) :=
    send_request cfg (call_env be i) n (TIMEOUT cfg) (fresh_thread (now w)) in
  (Ok {| outcome_of := r; finished_at := clock t; gets := attempts t |}, w).

(** [future.result()]: the value of the call, or its exception raised again. *)
Definition future_result (f : Future) : M World (option RequestResult) :=
  fun w => (outcome_of f, w).

(** Leaving the [with] block: the pool waits for every worker. *)
Definition shutdown (futures : list Future) : M World unit := fun w =>
  (Ok tt,
   {| now := fold_right (fun f t => Qmax (finished_at f) t) (now w) futures;
      requests := (requests w + list_sum (map gets futures))%nat;
      pools := pools w |}).

Definition run_workload (num_requests n : Z) : M World WorkloadResult :=
  start_time <- world_time ;;
  pool <- ThreadPoolExecutor num_requests ;;
  futures <- for_each (submit (env pool) n) (seq 0 (Z.to_nat num_requests)) ;;
  results <- finally
               (for_each future_result (as_completed (picks (env pool)) futures))
               (shutdown futures) ;;
  end_time <- world_time ;;
  let total_time := (end_time - start_time)%Q in
  successful_results <- successful results ;;
  success_rate <- truediv (Z.of_nat (List.length successful_results)) num_requests ;;
  let latencies := map execution_time successful_results in
  throughput <- match (total_time ?= 0)%Q with
                | Gt => float_div (inject_Z num_requests) total_time
                | _ => ret 0%Q
                end ;;
  avg <- match latencies with
         | [] => ret 0%Q
         | _ => statistics_mean latencies
         end ;;
  ret {| total_time := total_time;
         throughput := throughput;
         avg_calculation_time := Some avg;
         request_count := num_requests;
         success_rate := success_rate;
         latencies := latencies |}.

(** The loop of [main]: the sweep over [REQUEST_COUNTS], one batch after the
    other. *)
Fixpoint main_loop (counts : list Z) (results : list WorkloadResult)
  : M World (list WorkloadResult) :=
  match counts with
  | [] => ret results
  | count :: rest =>
      result <- run_workload count (DEFAULT_N_VALUE cfg) ;;
      main_loop rest (results ++ [result])
  end.

(** One call of [matplotlib.pyplot]. *)
Definition pyplot (c : PltCall) : M World unit := fun w =>
  match plt c with
  | None => (Ok tt, w)
  | Some e => (Raise e, w)
  end.

(** [[results[0].total_time/r.total_time for r in results]]: [results[0]] is
    read for each [r], so never on an empty list; the division raises on a
    [total_time] of 0. *)
Definition speedups_of (results : list WorkloadResult) : M World (list Q) :=
  match results with
  | [] => ret []
  | first :: _ => for_each (fun r => float_div (total_time first) (total_time r)) results
  end.

(** [[(r.request_count, r.latencies) for r in results if r.latencies]] *)
Definition valid_results_of (results : list WorkloadResult) : list (Z * list Q) :=
  map (fun r => (request_count r, latencies r))
      (filter (fun r => match latencies r with [] => false | _ => true end) results).

(** [create_and_display_plots(results)]: the five panels, call by call. *)
Definition create_and_display_plots (results : list WorkloadResult) : M World unit :=
  pyplot (plt_figure 20 12) ;;;

  pyplot (plt_subplot 231) ;;;
  pyplot (plt_plot (map request_count results) (map total_time results) "o") ;;;
  pyplot (plt_title "Execution Time") ;;;
  pyplot (plt_xlabel "Number of Requests") ;;;
  pyplot (plt_ylabel "Time (s)") ;;;
  pyplot (plt_grid true) ;;;

  pyplot (plt_subplot 232) ;;;
  pyplot (plt_plot (map request_count results) (map throughput results) "o") ;;;
  pyplot (plt_title "Throughput") ;;;
  pyplot (plt_xlabel "Number of Requests") ;;;
  pyplot (plt_ylabel "Requests/s") ;;;
  pyplot (plt_grid true) ;;;

  pyplot (plt_subplot 233) ;;;
  speedups <- speedups_of results ;;
  pyplot (plt_plot (map request_count results) speedups "o") ;;;
  pyplot (plt_title "Speedup") ;;;
  pyplot (plt_xlabel "Number of Requests") ;;;
  pyplot (plt_ylabel "Speedup Factor") ;;;
  pyplot (plt_grid true) ;;;

  pyplot (plt_subplot 234) ;;;
  pyplot (plt_plot (map request_count results)
            (map (fun r => (success_rate r * 100)%Q) results) "o") ;;;
  pyplot (plt_title "Success Rate") ;;;
  pyplot (plt_xlabel "Number of Requests") ;;;
  pyplot (plt_ylabel "Success Rate (%)") ;;;
  pyplot (plt_grid true) ;;;

  pyplot (plt_subplot 235) ;;;
  (match valid_results_of results with
   | _ :: _ =>
       let (counts, latencies) := split (valid_results_of results) in
       pyplot (plt_boxplot latencies (map string_of_Z counts)) ;;;
       pyplot (plt_title ("Latency Distribution"
                            ++ String "010"%char "(Successful Requests Only)")) ;;;
       pyplot (plt_xlabel "Number of Requests") ;;;
       pyplot (plt_ylabel "Latency (s)") ;;;
       pyplot (plt_xticks 45) ;;;
       pyplot (plt_grid true)
   | [] =>
       pyplot (plt_text (1 # 2) (1 # 2) "No successful requests to display latency data"
                 "center" "center")
   end) ;;;

  pyplot plt_tight_layout ;;;
  pyplot plt_show.

Definition main : M World (list WorkloadResult) :=
  results <- main_loop (REQUEST_COUNTS cfg) [] ;;
  create_and_display_plots results ;;;
  ret results.

End Coordinator.

(** ** Sample targets

    Scripts used to run the definitions on concrete inputs. *)

Definition refused : PyExc := mkExc ConnectionError "Connection refused".

Definition timed_out : PyExc := mkExc Timeout "Read timed out.".

Definition sample_body : Dict :=
  [("n"%string, JNum 100); ("sum_of_primes"%string, JNum 1060);
   ("time"%string, JNum (1 # 1000))].

Definition ok_response : Response :=
  {| status_code := 200; reason := "OK"; body := Some (JObj sample_body);
     json_error := "" |}.

(** Every attempt is refused after 10 ms. *)
Definition always_fail : CallEnv :=
  {| attempt_of := fun _ _ _ _ => {| took := 1 # 100; outcome := GetRaised refused |};
     lag := fun _ => 0%Q |}.

(** Every attempt is answered after 10 ms. *)
Definition always_ok : CallEnv :=
  {| attempt_of := fun _ _ _ _ => {| took := 1 # 100; outcome := GotResponse ok_response |};
     lag := fun _ => 0%Q |}.

(** The first [k] attempts fail (a 503, then time-outs), the next is
    answered; every sleep is 1 ms late. *)
Definition flaky (k : nat) : CallEnv :=
  {| attempt_of := fun _ _ _ i =>
       if (i =? 0)%nat && (0 <? k)%nat then
         {| took := 1 # 50;
            outcome := GotResponse
              {| status_code := 503; reason := "Service Unavailable"; body := None;
                 json_error := "Expecting value: line 1 column 1 (char 0)" |} |}
       else if (i <? k)%nat then {| took := 30; outcome := GetRaised timed_out |}
       else {| took := 1 # 100; outcome := GotResponse ok_response |};
     lag := fun _ => (1 # 1000)%Q |}.

Definition all_fail : Env := fun _ => {| call_env := fun _ => always_fail; picks := [] |}.

(** The i-th call of every batch needs [i mod 4] retries; completion order is
    shuffled. *)
Definition mixed : Env :=
  fun _ => {| call_env := fun i => flaky (i mod 4); picks := [2; 0; 5; 1]%nat |}.

Definition world0 : World := {| now := 0; requests := 0; pools := 0 |}.

(** A plotting library that draws whatever it is given. *)
Definition screen : Pyplot := fun _ => None.

(** ** One attempt, and the thread along the retries *)

(** What the body of the [try] comes to for a given attempt, the state left
    aside: the decoded body, or the exception raised by [requests.get],
    [raise_for_status] or [json]. *)
Definition attempt_value (url : string) (a : Attempt) : Res JSON :=
  match outcome a with
  | GetRaised e => Raise e
  | GotResponse r => fst ((raise_for_status url r ;;; response_json r) tt)
  end.

(** The attempt fails in a way the [except] clause handles. *)
Definition fails_with (url : string) (a : Attempt) (e : PyExc) : Prop :=
  attempt_value url a = Raise e /\ isinstance_RequestException e = true.


(** The same at one url and one timeout. *)
Definition request_exceptions_only (ce : CallEnv) (url : string) (timeout : Z) : Prop :=
  forall n k e,
    outcome (attempt_of ce url n timeout k) = GetRaised e ->
    isinstance_RequestException e = true.


(** The thread after [requests.get], whatever it gave. *)
Definition after_get (ce : CallEnv) (url : string) (n timeout : Z) (t : Thread) : Thread :=
  snd (requests_get ce url n timeout t).

(** The thread after [time.sleep(secs)]. *)
Definition after_sleep (ce : CallEnv) (secs : Q) (t : Thread) : Thread :=
  snd (time_sleep ce secs t).

Section Retries.

Variable cfg : Config.
Variable ce : CallEnv.
Variables n timeout : Z.

Local Abbreviation url := (sum_url cfg).

(** The thread after [j] failed attempts, each followed by its sleep. *)
Fixpoint after_retries (j : nat) (t : Thread) : Thread :=
  match j with
  | O => t
  | S j' => after_retries j' (after_sleep ce 1 (after_get ce url n timeout t))
  end.

(** Time spent in [m] attempts, from the attempt numbered [from]. *)
Fixpoint attempts_time (from m : nat) : Q :=
  match m with
  | O => 0
  | S m' => took (attempt_of ce url n timeout from) + attempts_time (S from) m'
  end.

(** Time spent in [m] sleeps of one second, from the sleep numbered [from]. *)
Fixpoint sleeps_time (from m : nat) : Q :=
  match m with
  | O => 0
  | S m' => 1 + lag ce from + sleeps_time (S from) m'
  end.

(** The log of [j] failed attempts, each followed by its sleep. *)
Fixpoint retries_log (j : nat) : list Event :=
  match j with
  | O => []
  | S j' => EvGet url n timeout :: EvSleep 1 :: retries_log j'
  end.

Definition success_result (d : JSON) (elapsed : Q) : RequestResult :=
  {| response_data := d; execution_time := elapsed; success := true; error := None |}.

Definition failure_result (e : PyExc) (elapsed : Q) : RequestResult :=
  {| response_data := JNull; execution_time := elapsed; success := false;
     error := Some (str e) |}.

End Retries.

(** The clock of a call does not run backwards: no attempt takes a negative
    time and no sleep ends early. *)
Definition clock_advances (ce : CallEnv) : Prop :=
  (forall url n timeout k, (0 <= took (attempt_of ce url n timeout k))%Q) /\
  (forall k, (0 <= lag ce k)%Q).

(** ** The batch, call by call *)

(** What the i-th call of a batch submitted at time [t0] comes to. *)
Definition call_outcome (cfg : Config) (be : BatchEnv) (n : Z) (t0 : Q) (i : nat)
  : Res (option RequestResult) :=
  fst (send_request cfg (call_env be i) n (TIMEOUT cfg) (fresh_thread t0)).

(** The future of that call. *)
Definition future_of (cfg : Config) (be : BatchEnv) (n : Z) (t0 : Q) (i : nat) : Future :=
  let rt := send_request cfg (call_env be i) n (TIMEOUT cfg) (fresh_thread t0) in
  {| outcome_of := fst rt; finished_at := clock (snd rt); gets := attempts (snd rt) |}.

(** The call returned a result with [success = True]. *)
Definition succeeded (o : Res (option RequestResult)) : bool :=
  match o with
  | Ok (Some r) => success r
  | _ => false
  end.

(** The world when the pool of a batch has shut down. *)
Definition after_batch (w : World) (futures : list Future) : World :=
  {| now := fold_right (fun f t => Qmax (finished_at f) t) (now w) futures;
     requests := (requests w + list_sum (map gets futures))%nat;
     pools := S (pools w) |}.

(** The summary [run_workload] builds from the successful results, when none
    of its divisions raises. *)
Definition summary_of (num_requests : Z) (total : Q)
    (successful_results : list RequestResult) : WorkloadResult :=
  let lat := map execution_time successful_results in
  {| total_time := total;
     throughput := match (total ?= 0)%Q with
                   | Gt => (inject_Z num_requests / total)%Q
                   | _ => 0%Q
                   end;
     avg_calculation_time :=
       Some (match lat with
             | [] => 0%Q
             | _ => (Qsum lat / inject_Z (Z.of_nat (List.length lat)))%Q
             end);
     request_count := num_requests;
     success_rate :=
       (inject_Z (Z.of_nat (List.length successful_results)) / inject_Z num_requests)%Q;
     latencies := lat |}.


(** The same at the url and the timeout of the configuration. *)
Definition polite_at (cfg : Config) (env : Env) : Prop :=
  forall k i, request_exceptions_only (call_env (env k) i) (sum_url cfg) (TIMEOUT cfg).


(** The summaries of a sweep over [counts] from the world [w]: each is what
    [run_workload] returns at its level, run where the level before it left
    the world. *)
Inductive sweep (cfg : Config) (env : Env)
  : list Z -> World -> list WorkloadResult -> World -> Prop :=
| sweep_done w : sweep cfg env [] w [] w
| sweep_level c cs w r w1 rs w' :
    run_workload cfg env c (DEFAULT_N_VALUE cfg) w = (Ok r, w1) ->
    sweep cfg env cs w1 rs w' ->
    sweep cfg env (c :: cs) w (r :: rs) w'.

(** Every attempt of every call fails, at the url and the timeout of the
    configuration. *)
Definition total_failure (cfg : Config) (env : Env) : Prop :=
  forall k i n j, exists e,
    fails_with (sum_url cfg)
      (attempt_of (call_env (env k) i) (sum_url cfg) n (TIMEOUT cfg) j) e.

(** A computation that leaves the world as it is. *)
Definition keeps {A} (m : M World A) : Prop := forall w, snd (m w) = w.

(** The plotting library raises nothing. *)
Definition draws (plt : Pyplot) : Prop := forall c, plt c = None.

(** Every attempt takes some time, and no sleep ends early. *)
Definition takes_time (env : Env) : Prop :=
  forall k i,
    (forall url n timeout j, (0 < took (attempt_of (call_env (env k) i) url n timeout j))%Q) /\
    (forall j, (0 <= lag (call_env (env k) i) j)%Q).

(** ** More sample targets *)

(** What the service answers to a parameter it cannot read: status 700. *)
Definition invalid_input_response : Response :=
  {| status_code := 700; reason := "UNKNOWN";
     body := Some (JObj [("error"%string, JStr "Invalid input")]);
     json_error := "" |}.

Definition always_700 : CallEnv :=
  {| attempt_of := fun _ _ _ _ =>
       {| took := 1 # 100; outcome := GotResponse invalid_input_response |};
     lag := fun _ => 0%Q |}.

Definition bad_timeout : PyExc :=
  mkExc ValueError "Attempted to set connect timeout to 0, but the timeout cannot be set to a value less than or equal to 0.".


(** A target that answers 200 with the body [null]. *)
Definition null_response : Response :=
  {| status_code := 200; reason := "OK"; body := Some JNull; json_error := "" |}.

Definition answers_null : CallEnv :=
  {| attempt_of := fun _ _ _ _ =>
       {| took := 1 # 100; outcome := GotResponse null_response |};
     lag := fun _ => 0%Q |}.

(** The first attempt is refused; the second raises a [ValueError]. *)
Definition breaks_on_second : CallEnv :=
  {| attempt_of := fun _ _ _ i =>
       if (i =? 0)%nat then {| took := 1 # 100; outcome := GetRaised refused |}
       else {| took := 1 # 100; outcome := GetRaised bad_timeout |};
     lag := fun _ => (1 # 1000)%Q |}.

(** The batches of [mixed], with the futures handed back in another order. *)
Definition mixed_reordered : Env :=
  fun _ => {| call_env := fun i => flaky (i mod 4); picks := [5; 5; 0; 3; 1]%nat |}.

(** The second call of every batch raises a [ValueError]; the others fail. *)
Definition one_breaks : Env :=
  fun _ => {| call_env := fun i => if (i =? 1)%nat then breaks_on_second else always_fail;
              picks := [1]%nat |}.


(** Every call of every batch is answered. *)
Definition all_ok : Env := fun _ => {| call_env := fun _ => always_ok; picks := [3; 1]%nat |}.

(** [sum(counts)] *)
Definition Zsum (l : list Z) : Z := fold_right Z.add 0 l.

(** * Proofs *)

(** ** The monad: how computations unfold *)

Lemma bind_Ok {S A B} (m : M S A) (k : A -> M S B) s a s' :
  m s = (Ok a, s') -> bind m k s = k a s'.
Proof. intros H. unfold bind. now rewrite H. Qed.


(** A bind that returns went through both of its halves. *)
Lemma bind_inv_Ok {S A B} (m : M S A) (k : A -> M S B) s b s2 :
  bind m k s = (Ok b, s2) ->
  exists a s1, m s = (Ok a, s1) /\ k a s1 = (Ok b, s2).
Proof.
  unfold bind. destruct (m s) as [[a|e] s1]; intros H.
  - now exists a, s1.
  - discriminate.
Qed.

(** A bind that raises did so in one of its halves. *)
Lemma bind_inv_Raise {S A B} (m : M S A) (k : A -> M S B) s e s2 :
  bind m k s = (Raise e, s2) ->
  m s = (Raise e, s2) \/ exists a s1, m s = (Ok a, s1) /\ k a s1 = (Raise e, s2).
Proof.
  unfold bind. destruct (m s) as [[a|e'] s1]; intros H.
  - right. now exists a, s1.
  - left. now inversion H.
Qed.

(** ** One attempt *)

Lemma raise_for_status_state {S} url r (s : S) :
  raise_for_status url r s = (fst (raise_for_status url r tt), s).
Proof.
  unfold raise_for_status.
  destruct ((400 <=? status_code r) && (status_code r <? 500)); [reflexivity|].
  destruct ((500 <=? status_code r) && (status_code r <? 600)); reflexivity.
Qed.

Lemma raise_for_status_class {S} url r (s s' : S) e :
  raise_for_status url r s = (Raise e, s') -> exc_class e = HTTPError.
Proof.
  unfold raise_for_status, raise, ret.
  destruct ((400 <=? status_code r) && (status_code r <? 500)).
  - intros H. now inversion H.
  - destruct ((500 <=? status_code r) && (status_code r <? 600)); intros H.
    + now inversion H.
    + discriminate.
Qed.

Lemma response_json_state {S} r (s : S) :
  response_json r s = (fst (response_json r tt), s).
Proof. unfold response_json. now destruct (body r). Qed.

(** A response raises only [HTTPError] or [JSONDecodeError]. *)
Lemma response_value_class url r e :
  fst ((raise_for_status url r ;;; response_json r) tt) = Raise e ->
  isinstance_RequestException e = true.
Proof.
  unfold bind. destruct (raise_for_status url r tt) as [[[]|e'] s] eqn:E; cbn.
  - unfold response_json. destruct (body r); cbn; intros H; [discriminate|].
    now inversion H.
  - intros H. inversion H; subst.
    apply raise_for_status_class in E. unfold isinstance_RequestException.
    now rewrite E.
Qed.

Lemma attempt_value_class ce url n timeout k e :
  request_exceptions_only ce url timeout ->
  attempt_value url (attempt_of ce url n timeout k) = Raise e ->
  isinstance_RequestException e = true.
Proof.
  intros Hce. unfold attempt_value.
  destruct (outcome (attempt_of ce url n timeout k)) as [r|e'] eqn:E.
  - apply response_value_class.
  - intros H. inversion H; subst. eapply Hce; eauto.
Qed.

(** An attempt that gives a value was answered, and the value is the decoded
    body of the answer. *)
Lemma attempt_value_Ok_inv url a d :
  attempt_value url a = Ok d ->
  exists resp, outcome a = GotResponse resp /\ body resp = Some d.
Proof.
  unfold attempt_value. destruct (outcome a) as [resp|e]; [|discriminate].
  unfold bind. destruct (raise_for_status url resp tt) as [[[]|e] s]; [|discriminate].
  unfold response_json. destruct (body resp) as [d'|] eqn:E; cbn; intros H;
    inversion H; subst.
  now exists resp.
Qed.


(** The body of the [try], attempt by attempt. *)
Lemma send_request_try_eq cfg ce n timeout start t :
  send_request_try cfg ce n timeout start t =
  let t' := after_get ce (sum_url cfg) n timeout t in
  match attempt_value (sum_url cfg) (attempt_of ce (sum_url cfg) n timeout (attempts t)) with
  | Ok d => (Ok (Some {| response_data := d;
                         execution_time := clock t' - start;
                         success := true;
                         error := None |}), t')
  | Raise e => (Raise e, t')
  end.
Proof.
  unfold send_request_try, attempt_value, after_get, bind at 1, requests_get.
  destruct (outcome (attempt_of ce (sum_url cfg) n timeout (attempts t))) as [r|e];
    cbn [snd]; [|reflexivity].
  unfold bind. rewrite raise_for_status_state.
  destruct (raise_for_status (sum_url cfg) r tt) as [[[]|e] []]; cbn [fst]; [|reflexivity].
  rewrite response_json_state.
  destruct (response_json r tt) as [[d|e] []]; reflexivity.
Qed.

(** ** The retry loop *)

Section Loop.

Variable cfg : Config.
Variable ce : CallEnv.
Variables n timeout : Z.

Local Abbreviation url := (sum_url cfg).

(** One turn of the loop. *)
Lemma send_request_loop_step start attempt rest t :
  send_request_loop cfg ce n timeout start (attempt :: rest) t =
  let t' := after_get ce url n timeout t in
  match attempt_value url (attempt_of ce url n timeout (attempts t)) with
  | Ok d => (Ok (Some (success_result d (clock t' - start))), t')
  | Raise e =>
      if isinstance_RequestException e then
        if attempt =? MAX_RETRIES cfg - 1 then
          (Ok (Some (failure_result e (clock t' - start))), t')
        else send_request_loop cfg ce n timeout start rest (after_sleep ce 1 t')
      else (Raise e, t')
  end.
Proof.
  cbn [send_request_loop]. unfold try_except. rewrite send_request_try_eq.
  cbv zeta.
  destruct (attempt_value url (attempt_of ce url n timeout (attempts t))) as [d|e];
    [reflexivity|].
  destruct (isinstance_RequestException e); [|reflexivity].
  destruct (attempt =? MAX_RETRIES cfg - 1); reflexivity.
Qed.

Lemma attempts_after_get t : attempts (after_get ce url n timeout t) = S (attempts t).
Proof.
  unfold after_get, requests_get.
  now destruct (outcome (attempt_of ce url n timeout (attempts t))).
Qed.

Lemma sleeps_after_get t : sleeps (after_get ce url n timeout t) = sleeps t.
Proof.
  unfold after_get, requests_get.
  now destruct (outcome (attempt_of ce url n timeout (attempts t))).
Qed.

Lemma log_after_get t :
  log (after_get ce url n timeout t) = (log t ++ [EvGet url n timeout])%list.
Proof.
  unfold after_get, requests_get.
  now destruct (outcome (attempt_of ce url n timeout (attempts t))).
Qed.

Lemma clock_after_get t :
  clock (after_get ce url n timeout t) =
  (clock t + took (attempt_of ce url n timeout (attempts t)))%Q.
Proof.
  unfold after_get, requests_get.
  now destruct (outcome (attempt_of ce url n timeout (attempts t))).
Qed.

Lemma attempts_after_retries j : forall t,
  attempts (after_retries cfg ce n timeout j t) = (attempts t + j)%nat.
Proof.
  induction j as [|j IH]; intros t; cbn [after_retries].
  - lia.
  - rewrite IH. cbn. rewrite attempts_after_get. lia.
Qed.

Lemma sleeps_after_retries j : forall t,
  sleeps (after_retries cfg ce n timeout j t) = (sleeps t + j)%nat.
Proof.
  induction j as [|j IH]; intros t; cbn [after_retries].
  - lia.
  - rewrite IH. cbn. rewrite sleeps_after_get. lia.
Qed.

Lemma log_after_retries j : forall t,
  log (after_retries cfg ce n timeout j t) = (log t ++ retries_log cfg n timeout j)%list.
Proof.
  induction j as [|j IH]; intros t; cbn [after_retries retries_log].
  - now rewrite app_nil_r.
  - rewrite IH. cbn. rewrite log_after_get. now rewrite <- !app_assoc.
Qed.

Lemma clock_after_retries j : forall t,
  (clock (after_retries cfg ce n timeout j t) ==
   clock t + attempts_time cfg ce n timeout (attempts t) j + sleeps_time ce (sleeps t) j)%Q.
Proof.
  induction j as [|j IH]; intros t; cbn [after_retries attempts_time sleeps_time].
  - ring.
  - rewrite IH. cbn [after_sleep time_sleep snd clock attempts sleeps].
    rewrite attempts_after_get, sleeps_after_get, clock_after_get. ring.
Qed.

(** While attempts fail and the budget is not used up, the loop goes on. *)
Lemma send_request_loop_skip start j : forall i m t,
  (j < m)%nat ->
  (i + m = Z.to_nat (MAX_RETRIES cfg))%nat ->
  (forall k, (k < j)%nat ->
     exists e, fails_with url (attempt_of ce url n timeout (attempts t + k)) e) ->
  send_request_loop cfg ce n timeout start (map Z.of_nat (seq i m)) t =
  send_request_loop cfg ce n timeout start (map Z.of_nat (seq (i + j) (m - j)))
    (after_retries cfg ce n timeout j t).
Proof.
  induction j as [|j IH]; intros i m t Hj Him Hfail.
  - cbn [after_retries]. now rewrite Nat.add_0_r, Nat.sub_0_r.
  - destruct m as [|m]; [lia|]. cbn [seq map].
    rewrite send_request_loop_step. cbv zeta.
    destruct (Hfail 0%nat ltac:(lia)) as [e [Hv He]].
    rewrite Nat.add_0_r in Hv. rewrite Hv, He.
    replace (Z.of_nat i =? MAX_RETRIES cfg - 1) with false
      by (symmetry; apply Z.eqb_neq; lia).
    rewrite (IH (S i) m) by
      (try lia; intros k Hk; cbn; rewrite attempts_after_get;
       replace (S (attempts t) + k)%nat with (attempts t + S k)%nat by lia;
       apply Hfail; lia).
    cbn [after_retries]. f_equal. f_equal. f_equal; lia.
Qed.

(** The call that is answered on its attempt numbered [j] (from 0), the
    earlier ones having failed. *)
Lemma send_request_succeeds j d t :
  (j < Z.to_nat (MAX_RETRIES cfg))%nat ->
  (forall k, (k < j)%nat ->
     exists e, fails_with url (attempt_of ce url n timeout (attempts t + k)) e) ->
  attempt_value url (attempt_of ce url n timeout (attempts t + j)) = Ok d ->
  send_request cfg ce n timeout t =
  let t' := after_get ce url n timeout (after_retries cfg ce n timeout j t) in
  (Ok (Some (success_result d (clock t' - clock t))), t').
Proof.
  intros Hj Hfail Hok. unfold send_request, range, bind, time_time.
  rewrite (send_request_loop_skip (clock t) j 0 _ t Hj eq_refl Hfail).
  destruct (Z.to_nat (MAX_RETRIES cfg) - j)%nat as [|m] eqn:E; [lia|].
  cbn [seq map]. rewrite send_request_loop_step. cbv zeta.
  rewrite attempts_after_retries, Hok. reflexivity.
Qed.

(** The call whose every attempt fails. *)
Lemma send_request_exhausted e t :
  1 <= MAX_RETRIES cfg ->
  (forall k, (k < Z.to_nat (MAX_RETRIES cfg) - 1)%nat ->
     exists e', fails_with url (attempt_of ce url n timeout (attempts t + k)) e') ->
  fails_with url
    (attempt_of ce url n timeout (attempts t + (Z.to_nat (MAX_RETRIES cfg) - 1))) e ->
  send_request cfg ce n timeout t =
  let t' := after_get ce url n timeout
              (after_retries cfg ce n timeout (Z.to_nat (MAX_RETRIES cfg) - 1) t) in
  (Ok (Some (failure_result e (clock t' - clock t))), t').
Proof.
  intros Hmax Hfail [Hv He]. unfold send_request, range, bind, time_time.
  rewrite (send_request_loop_skip (clock t) (Z.to_nat (MAX_RETRIES cfg) - 1) 0 _ t)
    by (try lia; exact Hfail).
  replace (Z.to_nat (MAX_RETRIES cfg) - (Z.to_nat (MAX_RETRIES cfg) - 1))%nat
    with 1%nat by lia.
  cbn [seq map]. rewrite send_request_loop_step. cbv zeta.
  rewrite attempts_after_retries, Hv, He.
  replace (Z.of_nat (0 + (Z.to_nat (MAX_RETRIES cfg) - 1)) =? MAX_RETRIES cfg - 1)
    with true by (symmetry; apply Z.eqb_eq; lia).
  reflexivity.
Qed.

End Loop.

(** ** What a call returns *)

Lemma attempts_time_nonneg cfg ce n timeout m : forall from,
  clock_advances ce -> (0 <= attempts_time cfg ce n timeout from m)%Q.
Proof.
  induction m as [|m IH]; intros from Hc; cbn [attempts_time].
  - apply Qle_refl.
  - destruct Hc as [Ht Hl]. specialize (IH (S from) (conj Ht Hl)).
    specialize (Ht (sum_url cfg) n timeout from). lra.
Qed.

Lemma sleeps_time_lower ce m : forall from,
  clock_advances ce -> (inject_Z (Z.of_nat m) <= sleeps_time ce from m)%Q.
Proof.
  induction m as [|m IH]; intros from Hc; cbn [sleeps_time].
  - apply Qle_refl.
  - destruct Hc as [Ht Hl]. specialize (IH (S from) (conj Ht Hl)).
    specialize (Hl from). rewrite Nat2Z.inj_succ. unfold Z.succ.
    rewrite inject_Z_plus. change (inject_Z 1) with 1%Q. lra.
Qed.

(** Among the first [m] attempts from [from], either one is answered after
    failures only, or all raise. *)
Lemma first_answer cfg ce n timeout from m :
  (exists j d, (j < m)%nat /\
     (forall k, (k < j)%nat ->
        exists e, attempt_value (sum_url cfg)
                    (attempt_of ce (sum_url cfg) n timeout (from + k)) = Raise e) /\
     attempt_value (sum_url cfg) (attempt_of ce (sum_url cfg) n timeout (from + j)) = Ok d)
  \/
  (forall k, (k < m)%nat ->
     exists e, attempt_value (sum_url cfg)
                 (attempt_of ce (sum_url cfg) n timeout (from + k)) = Raise e).
Proof.
  induction m as [|m IH].
  - right. intros k Hk. lia.
  - destruct IH as [(j & d & Hj & Hbefore & Hd)|Hall].
    + left. exists j, d. repeat split; auto.
    + destruct (attempt_value (sum_url cfg)
                  (attempt_of ce (sum_url cfg) n timeout (from + m))) as [d|e] eqn:E.
      * left. exists m, d. repeat split; auto.
      * right. intros k Hk. destruct (Nat.eq_dec k m) as [->|Hne].
        -- now exists e.
        -- apply Hall. lia.
Qed.

(** With a budget of at least one attempt and a network that raises only
    [RequestException]s, a call returns: the payload of its first answered
    attempt, or the error of its last attempt. *)
Lemma send_request_cases cfg ce n timeout t :
  1 <= MAX_RETRIES cfg ->
  request_exceptions_only ce (sum_url cfg) timeout ->
  (exists j d,
     (j < Z.to_nat (MAX_RETRIES cfg))%nat /\
     attempt_value (sum_url cfg)
       (attempt_of ce (sum_url cfg) n timeout (attempts t + j)) = Ok d /\
     send_request cfg ce n timeout t =
     (Ok (Some (success_result d
                  (clock (after_get ce (sum_url cfg) n timeout
                            (after_retries cfg ce n timeout j t)) - clock t))),
      after_get ce (sum_url cfg) n timeout (after_retries cfg ce n timeout j t)))
  \/
  (exists e,
     (forall k, (k < Z.to_nat (MAX_RETRIES cfg))%nat ->
        exists e', fails_with (sum_url cfg)
                     (attempt_of ce (sum_url cfg) n timeout (attempts t + k)) e') /\
     fails_with (sum_url cfg)
       (attempt_of ce (sum_url cfg) n timeout
          (attempts t + (Z.to_nat (MAX_RETRIES cfg) - 1))) e /\
     send_request cfg ce n timeout t =
     (Ok (Some (failure_result e
                  (clock (after_get ce (sum_url cfg) n timeout
                            (after_retries cfg ce n timeout
                               (Z.to_nat (MAX_RETRIES cfg) - 1) t)) - clock t))),
      after_get ce (sum_url cfg) n timeout
        (after_retries cfg ce n timeout (Z.to_nat (MAX_RETRIES cfg) - 1) t))).
Proof.
  intros Hmax Hce.
  assert (Hcls : forall k e,
             attempt_value (sum_url cfg)
               (attempt_of ce (sum_url cfg) n timeout k) = Raise e ->
             fails_with (sum_url cfg) (attempt_of ce (sum_url cfg) n timeout k) e).
  { intros k e H. split; [exact H|]. eapply attempt_value_class; eauto. }
  destruct (first_answer cfg ce n timeout (attempts t) (Z.to_nat (MAX_RETRIES cfg)))
    as [(j & d & Hj & Hbefore & Hd)|Hall].
  - left. exists j, d. repeat split; auto.
    apply send_request_succeeds; auto.
    intros k Hk. destruct (Hbefore k Hk) as [e He]. exists e. now apply Hcls.
  - right.
    destruct (Hall (Z.to_nat (MAX_RETRIES cfg) - 1)%nat ltac:(lia)) as [e He].
    exists e.
    assert (Hall' : forall k, (k < Z.to_nat (MAX_RETRIES cfg))%nat ->
              exists e', fails_with (sum_url cfg)
                           (attempt_of ce (sum_url cfg) n timeout (attempts t + k)) e').
    { intros k Hk. destruct (Hall k Hk) as [e' He']. exists e'. now apply Hcls. }
    split; [exact Hall'|]. split; [now apply Hcls|].
    apply send_request_exhausted; auto.
    intros k Hk. apply Hall'. lia.
Qed.

Lemma attempts_time_snoc cfg ce n timeout m : forall from,
  (attempts_time cfg ce n timeout from (S m) ==
   attempts_time cfg ce n timeout from m
   + took (attempt_of ce (sum_url cfg) n timeout (from + m)))%Q.
Proof.
  induction m as [|m IH]; intros from.
  - cbn [attempts_time]. rewrite Nat.add_0_r. ring.
  - change (attempts_time cfg ce n timeout from (S (S m)))
      with (took (attempt_of ce (sum_url cfg) n timeout from)
            + attempts_time cfg ce n timeout (S from) (S m))%Q.
    rewrite IH. cbn [attempts_time].
    replace (S from + m)%nat with (from + S m)%nat by lia. ring.
Qed.

(** The clock at the end of the attempt numbered [j], after [j] retries. *)
Lemma clock_after_attempts cfg ce n timeout j t :
  (clock (after_get ce (sum_url cfg) n timeout (after_retries cfg ce n timeout j t)) ==
   clock t + attempts_time cfg ce n timeout (attempts t) (S j)
   + sleeps_time ce (sleeps t) j)%Q.
Proof.
  rewrite clock_after_get, clock_after_retries, attempts_after_retries.
  rewrite attempts_time_snoc. ring.
Qed.


Lemma always_fail_clock_advances : clock_advances always_fail.
Proof. split; intros; cbn; discriminate. Qed.

Lemma always_fail_fails url n timeout k :
  fails_with url (attempt_of always_fail url n timeout k) refused.
Proof. split; reflexivity. Qed.


Lemma flaky_clock_advances k : clock_advances (flaky k).
Proof.
  split; [intros url n timeout i|intros i]; unfold flaky; cbn [attempt_of lag];
    [|discriminate].
  destruct ((i =? 0)%nat && (0 <? k)%nat); [discriminate|].
  destruct (i <? k)%nat; discriminate.
Qed.

(** The [except] clause lets every other exception through: raised by the
    first attempt, it leaves [send_request]. *)
Lemma send_request_lets_others_through cfg ce n timeout t e :
  1 <= MAX_RETRIES cfg ->
  outcome (attempt_of ce (sum_url cfg) n timeout (attempts t)) = GetRaised e ->
  isinstance_RequestException e = false ->
  fst (send_request cfg ce n timeout t) = Raise e.
Proof.
  intros Hmax Hout He. unfold send_request, range, bind, time_time.
  destruct (Z.to_nat (MAX_RETRIES cfg)) as [|m] eqn:E; [lia|].
  cbn [seq map]. rewrite send_request_loop_step. cbv zeta.
  unfold attempt_value. rewrite Hout, He. reflexivity.
Qed.

(** Among the first [m] attempts from [from], the first one that does not
    fail with a [RequestException], if any: it is answered, or it raises
    something else. *)
Lemma first_stop cfg ce n timeout from m :
  (exists k, (k < m)%nat /\
     (forall j, (j < k)%nat ->
        exists e, fails_with (sum_url cfg)
                    (attempt_of ce (sum_url cfg) n timeout (from + j)) e) /\
     ((exists d, attempt_value (sum_url cfg)
                   (attempt_of ce (sum_url cfg) n timeout (from + k)) = Ok d) \/
      (exists e, attempt_value (sum_url cfg)
                   (attempt_of ce (sum_url cfg) n timeout (from + k)) = Raise e /\
                 isinstance_RequestException e = false)))
  \/
  (forall j, (j < m)%nat ->
     exists e, fails_with (sum_url cfg)
                 (attempt_of ce (sum_url cfg) n timeout (from + j)) e).
Proof.
  induction m as [|m IH].
  - right. intros j Hj. lia.
  - destruct IH as [(k & Hk & Hbefore & Hstop)|Hall].
    + left. exists k. repeat split; auto.
    + destruct (attempt_value (sum_url cfg)
                  (attempt_of ce (sum_url cfg) n timeout (from + m))) as [d|e] eqn:E.
      * left. exists m. split; [lia|]. split; [exact Hall|]. left. now exists d.
      * destruct (isinstance_RequestException e) eqn:He.
        -- right. intros j Hj. destruct (Nat.eq_dec j m) as [->|Hne].
           ++ exists e. now split.
           ++ apply Hall. lia.
        -- left. exists m. split; [lia|]. split; [exact Hall|]. right. now exists e.
Qed.

(** The call whose attempt numbered [j] raises something the [except] clause
    does not handle, the earlier ones having failed. *)
Lemma send_request_propagates cfg ce n timeout j e t :
  (j < Z.to_nat (MAX_RETRIES cfg))%nat ->
  (forall k, (k < j)%nat ->
     exists e', fails_with (sum_url cfg)
                  (attempt_of ce (sum_url cfg) n timeout (attempts t + k)) e') ->
  attempt_value (sum_url cfg)
    (attempt_of ce (sum_url cfg) n timeout (attempts t + j)) = Raise e ->
  isinstance_RequestException e = false ->
  send_request cfg ce n timeout t =
  (Raise e, after_get ce (sum_url cfg) n timeout (after_retries cfg ce n timeout j t)).
Proof.
  intros Hj Hfail Hv He. unfold send_request, range, bind, time_time.
  rewrite (send_request_loop_skip cfg ce n timeout (clock t) j 0 _ t Hj eq_refl Hfail).
  destruct (Z.to_nat (MAX_RETRIES cfg) - j)%nat as [|m] eqn:E; [lia|].
  cbn [seq map]. rewrite send_request_loop_step. cbv zeta.
  rewrite attempts_after_retries, Hv, He. reflexivity.
Qed.

(** The three ways a call with a budget ends: at its attempt numbered [k],
    after [k] failures, it is answered, or it fails for the last time, or it
    lets an exception through. *)
Lemma send_request_outcome cfg ce n timeout t :
  1 <= MAX_RETRIES cfg ->
  exists k,
    (k < Z.to_nat (MAX_RETRIES cfg))%nat /\
    (forall j, (j < k)%nat ->
       exists e, fails_with (sum_url cfg)
                   (attempt_of ce (sum_url cfg) n timeout (attempts t + j)) e) /\
    let t' := after_get ce (sum_url cfg) n timeout (after_retries cfg ce n timeout k t) in
    ((exists d,
        attempt_value (sum_url cfg)
          (attempt_of ce (sum_url cfg) n timeout (attempts t + k)) = Ok d /\
        send_request cfg ce n timeout t =
        (Ok (Some (success_result d (clock t' - clock t))), t'))
     \/
     (exists e,
        fails_with (sum_url cfg)
          (attempt_of ce (sum_url cfg) n timeout (attempts t + k)) e /\
        k = (Z.to_nat (MAX_RETRIES cfg) - 1)%nat /\
        send_request cfg ce n timeout t =
        (Ok (Some (failure_result e (clock t' - clock t))), t'))
     \/
     (exists e,
        attempt_value (sum_url cfg)
          (attempt_of ce (sum_url cfg) n timeout (attempts t + k)) = Raise e /\
        isinstance_RequestException e = false /\
        send_request cfg ce n timeout t = (Raise e, t'))).
Proof.
  intros Hmax.
  destruct (first_stop cfg ce n timeout (attempts t) (Z.to_nat (MAX_RETRIES cfg)))
    as [(k & Hk & Hbefore & [[d Hd]|(e & He & Hcls)])|Hall].
  - exists k. split; [exact Hk|]. split; [exact Hbefore|]. cbv zeta.
    left. exists d. split; [exact Hd|]. now apply send_request_succeeds.
  - exists k. split; [exact Hk|]. split; [exact Hbefore|]. cbv zeta.
    right. right. exists e. split; [exact He|]. split; [exact Hcls|].
    now apply send_request_propagates.
  - exists (Z.to_nat (MAX_RETRIES cfg) - 1)%nat. split; [lia|].
    split; [intros j Hj; apply Hall; lia|]. cbv zeta.
    destruct (Hall (Z.to_nat (MAX_RETRIES cfg) - 1)%nat ltac:(lia)) as [e He].
    right. left. exists e. split; [exact He|]. split; [reflexivity|].
    apply send_request_exhausted; auto. intros j Hj. apply Hall. lia.
Qed.

(** A call that returns a result had a budget. *)
Lemma send_request_Some_budget cfg ce n timeout t r t' :
  send_request cfg ce n timeout t = (Ok (Some r), t') -> 1 <= MAX_RETRIES cfg.
Proof.
  intros H. destruct (Z_lt_le_dec (MAX_RETRIES cfg) 1) as [Hlt|Hge]; [|exact Hge].
  unfold send_request, range, bind, time_time in H.
  replace (Z.to_nat (MAX_RETRIES cfg)) with 0%nat in H by lia. discriminate.
Qed.

(** ** The claims on the request executor *)







(** C3. Against a target whose every attempt fails, [send_request] with
    [MAX_RETRIES = 3] makes exactly three attempts with a [time.sleep(1)]
    between consecutive ones, and returns a failed result that carries the
    description of the error of the last attempt; when the clock does not run
    backwards its [execution_time] is at least 2, the sum of the two
    delays. *)
Theorem retry_exhaustion cfg ce n timeout t0 e_last :
  MAX_RETRIES cfg = 3 ->
  clock_advances ce ->
  (forall k, exists e,
     fails_with (sum_url cfg) (attempt_of ce (sum_url cfg) n timeout k) e) ->
  fails_with (sum_url cfg) (attempt_of ce (sum_url cfg) n timeout 2) e_last ->
  exists r t',
    send_request cfg ce n timeout (fresh_thread t0) = (Ok (Some r), t') /\
    attempts t' = 3%nat /\
    log t' = [EvGet (sum_url cfg) n timeout; EvSleep 1;
              EvGet (sum_url cfg) n timeout; EvSleep 1;
              EvGet (sum_url cfg) n timeout] /\
    success r = false /\
    response_data r = JNull /\
    error r = Some (str e_last) /\
    (2 <= execution_time r)%Q.
Proof.
  intros Hmax Hclock Hall Hlast.
  pose proof (send_request_exhausted cfg ce n timeout e_last (fresh_thread t0)) as H.
  rewrite Hmax in H. change (Z.to_nat 3 - 1)%nat with 2%nat in H.
  rewrite H; [|lia|intros k _; apply Hall|exact Hlast]. clear H.
  cbv zeta. eexists; eexists. split; [reflexivity|].
  rewrite attempts_after_get, attempts_after_retries, log_after_get, log_after_retries.
  cbn [fresh_thread attempts log retries_log app failure_result success response_data
       error execution_time].
  repeat (split; [reflexivity|]).
  rewrite clock_after_attempts. cbn [fresh_thread clock attempts sleeps].
  pose proof (attempts_time_nonneg cfg ce n timeout 3 0 Hclock).
  pose proof (sleeps_time_lower ce 2 0 Hclock) as Hs.
  change (inject_Z (Z.of_nat 2)) with 2%Q in Hs. lra.
Qed.

Lemma retry_exhaustion_witness :
  exists r t',
    send_request CONFIG always_fail 100000 30 (fresh_thread 0) = (Ok (Some r), t') /\
    attempts t' = 3%nat /\
    log t' = [EvGet (sum_url CONFIG) 100000 30; EvSleep 1;
              EvGet (sum_url CONFIG) 100000 30; EvSleep 1;
              EvGet (sum_url CONFIG) 100000 30] /\
    success r = false /\
    response_data r = JNull /\
    error r = Some (str refused) /\
    (2 <= execution_time r)%Q.
Proof.
  apply (retry_exhaustion CONFIG always_fail 100000 30 0 refused).
  - reflexivity.
  - exact always_fail_clock_advances.
  - intros k. exists refused. apply always_fail_fails.
  - apply always_fail_fails.
Defined.

(** C4. A call answered on its attempt number [k] (from 1, within the
    budget), the [k - 1] earlier attempts having failed, returns a result
    whose [execution_time] runs from before the first attempt to the end of
    the winning one: it is the sum of the durations of all [k] attempts and of
    the [k - 1] sleeps between them, so that, when the clock does not run
    backwards, it exceeds the duration of the winning attempt by at least
    [k - 1] seconds. *)
Theorem elapsed_spans_all_attempts cfg ce n timeout t0 k d :
  (1 <= k)%nat ->
  Z.of_nat k <= MAX_RETRIES cfg ->
  (forall i, (i < k - 1)%nat ->
     exists e, fails_with (sum_url cfg) (attempt_of ce (sum_url cfg) n timeout i) e) ->
  attempt_value (sum_url cfg) (attempt_of ce (sum_url cfg) n timeout (k - 1)) = Ok d ->
  exists r t',
    send_request cfg ce n timeout (fresh_thread t0) = (Ok (Some r), t') /\
    success r = true /\
    response_data r = d /\
    attempts t' = k /\
    execution_time r = (clock t' - t0)%Q /\
    (execution_time r ==
     attempts_time cfg ce n timeout 0 k + sleeps_time ce 0 (k - 1))%Q /\
    (clock_advances ce ->
     (took (attempt_of ce (sum_url cfg) n timeout (k - 1))
      + inject_Z (Z.of_nat (k - 1)) <= execution_time r)%Q).
Proof.
  intros Hk Hbudget Hfail Hok.
  destruct k as [|j]; [lia|]. replace (S j - 1)%nat with j in * by lia.
  rewrite (send_request_succeeds cfg ce n timeout j d (fresh_thread t0));
    [|lia|exact Hfail|exact Hok].
  cbv zeta. eexists; eexists. split; [reflexivity|].
  cbn [success_result success response_data execution_time].
  rewrite attempts_after_get, attempts_after_retries.
  repeat (split; [reflexivity|]).
  assert (Heq : (clock (after_get ce (sum_url cfg) n timeout
                          (after_retries cfg ce n timeout j (fresh_thread t0))) - t0 ==
                 attempts_time cfg ce n timeout 0 (S j) + sleeps_time ce 0 j)%Q).
  { rewrite clock_after_attempts. cbn [fresh_thread clock attempts sleeps]. ring. }
  split; [exact Heq|].
  intros Hclock. rewrite Heq, attempts_time_snoc.
  pose proof (attempts_time_nonneg cfg ce n timeout j 0 Hclock).
  pose proof (sleeps_time_lower ce j 0 Hclock).
  cbn [Nat.add]. lra.
Qed.

Lemma elapsed_spans_all_attempts_witness :
  exists r t',
    send_request CONFIG (flaky 2) 100000 30 (fresh_thread 5) = (Ok (Some r), t') /\
    success r = true /\
    response_data r = JObj sample_body /\
    attempts t' = 3%nat /\
    execution_time r = (clock t' - 5)%Q /\
    (execution_time r ==
     attempts_time CONFIG (flaky 2) 100000 30 0 3 + sleeps_time (flaky 2) 0 (3 - 1))%Q /\
    (clock_advances (flaky 2) ->
     (took (attempt_of (flaky 2) (sum_url CONFIG) 100000 30 (3 - 1))
      + inject_Z (Z.of_nat (3 - 1)) <= execution_time r)%Q).
Proof.
  apply (elapsed_spans_all_attempts CONFIG (flaky 2) 100000 30 5 3 (JObj sample_body)).
  - lia.
  - cbn. lia.
  - intros i Hi.
    destruct i as [|[|i]]; [| |cbn in Hi; lia]; eexists; split; reflexivity.
  - reflexivity.
Defined.

(** C8, as the spec has it, fails: the payload of a successful result can be
    absent.  A target that answers 200 with the body [null] gives a result
    with [success = True] whose [response_data] is [None], like its
    [error]. *)
Lemma null_body_breaks_exclusivity :
  exists r t',
    send_request CONFIG answers_null 100000 30 (fresh_thread 0) = (Ok (Some r), t') /\
    success r = true /\
    response_data r = JNull /\
    error r = None.
Proof.
  eexists; eexists. split; [vm_compute; reflexivity|]. repeat split.
Qed.

(** C8, as the code has it.  In every [RequestResult] returned by
    [send_request]: with [success = True] the [error] is [None] and the
    payload is the decoded body of the attempt that was answered, so it is
    there unless that body reads [null]; with [success = False] the error is
    there and the payload is [None].  The two are never there together. *)
Theorem payload_and_error_never_both cfg ce n timeout t r t' :
  send_request cfg ce n timeout t = (Ok (Some r), t') ->
  (success r = true ->
     error r = None /\
     exists k resp,
       (k < Z.to_nat (MAX_RETRIES cfg))%nat /\
       outcome (attempt_of ce (sum_url cfg) n timeout (attempts t + k)) = GotResponse resp /\
       body resp = Some (response_data r) /\
       (response_data r <> JNull <-> body resp <> Some JNull)) /\
  (success r = false -> error r <> None /\ response_data r = JNull) /\
  (response_data r = JNull \/ error r = None).
Proof.
  intros Hrun.
  pose proof (send_request_Some_budget _ _ _ _ _ _ _ Hrun) as Hmax.
  destruct (send_request_outcome cfg ce n timeout t Hmax) as (k & Hk & _ & Hend).
  cbv zeta in Hend.
  destruct Hend as [(d & Hd & Heq)|[(e & _ & _ & Heq)|(e & _ & _ & Heq)]];
    rewrite Heq in Hrun; inversion Hrun; subst r t'; clear Hrun;
    cbn [success_result failure_result success response_data error].
  - split; [|split; [intros H; discriminate|now right]].
    intros _. split; [reflexivity|].
    destruct (attempt_value_Ok_inv _ _ _ Hd) as (resp & Hout & Hbody).
    exists k, resp. split; [exact Hk|]. split; [exact Hout|]. split; [exact Hbody|].
    rewrite Hbody. split; intros H E; apply H; congruence.
  - split; [intros H; discriminate|]. split; [|now left].
    intros _. split; [discriminate|reflexivity].
Qed.

Lemma payload_and_error_never_both_witness :
  exists r t',
    send_request CONFIG (flaky 1) 100000 30 (fresh_thread 0) = (Ok (Some r), t') /\
    (success r = true ->
       error r = None /\
       exists k resp,
         (k < Z.to_nat (MAX_RETRIES CONFIG))%nat /\
         outcome (attempt_of (flaky 1) (sum_url CONFIG) 100000 30
                    (attempts (fresh_thread 0) + k)) = GotResponse resp /\
         body resp = Some (response_data r) /\
         (response_data r <> JNull <-> body resp <> Some JNull)) /\
    (success r = false -> error r <> None /\ response_data r = JNull) /\
    (response_data r = JNull \/ error r = None).
Proof.
  eexists; eexists. split; [vm_compute; reflexivity|].
  eapply (payload_and_error_never_both CONFIG (flaky 1) 100000 30 (fresh_thread 0)).
  vm_compute. reflexivity.
Defined.

(** C9. Without a retry budget ([MAX_RETRIES] is 0, or less) the body of the
    loop never runs: [send_request] makes no attempt and returns [None], not a
    [RequestResult]. *)
Theorem send_request_without_budget cfg ce n timeout t :
  MAX_RETRIES cfg <= 0 ->
  send_request cfg ce n timeout t = (Ok None, t).
Proof.
  intros H. unfold send_request, range, bind, time_time.
  replace (Z.to_nat (MAX_RETRIES cfg)) with 0%nat by lia. reflexivity.
Qed.

Lemma send_request_without_budget_witness :
  send_request (mkConfig "http://10.0.0.1:5000" 100000 [1; 10] 30 0) always_ok 100000 30
    (fresh_thread 0) = (Ok None, fresh_thread 0).
Proof.
  apply (send_request_without_budget
           (mkConfig "http://10.0.0.1:5000" 100000 [1; 10] 30 0) always_ok 100000 30
           (fresh_thread 0)).
  cbn. lia.
Defined.

(** ** The pieces of a batch *)

Lemma nth_remove_nth_perm {A} (d : A) : forall l i,
  (i < List.length l)%nat -> Permutation (nth i l d :: remove_nth i l) l.
Proof.
  induction l as [|x xs IH]; intros i Hi; cbn in Hi; [lia|].
  destruct i as [|j]; cbn [nth remove_nth].
  - apply Permutation_refl.
  - eapply perm_trans; [apply perm_swap|]. apply perm_skip, IH. lia.
Qed.

(** [as_completed] hands back every future, once. *)
Lemma as_completed_perm {A} (choice : list nat) : forall pending : list A,
  Permutation (as_completed choice pending) pending.
Proof.
  induction choice as [|p ps IH]; intros pending; cbn [as_completed].
  - apply Permutation_refl.
  - destruct pending as [|x xs]; [apply Permutation_refl|].
    eapply perm_trans; [apply perm_skip, IH|].
    apply nth_remove_nth_perm, Nat.mod_upper_bound. discriminate.
Qed.

Lemma submit_eq cfg be n i w :
  submit cfg be n i w = (Ok (future_of cfg be n (now w) i), w).
Proof.
  unfold submit, future_of.
  now destruct (send_request cfg (call_env be i) n (TIMEOUT cfg) (fresh_thread (now w))).
Qed.

Lemma for_each_submit cfg be n l w :
  for_each (submit cfg be n) l w = (Ok (map (future_of cfg be n (now w)) l), w).
Proof.
  induction l as [|i l IH]; cbn [for_each map]; [reflexivity|].
  unfold bind. now rewrite submit_eq, IH.
Qed.

(** Reading the futures does not touch the world. *)
Lemma for_each_future_result_state fs (w w0 : World) :
  for_each future_result fs w = (fst (for_each future_result fs w0), w).
Proof.
  induction fs as [|f fs IH]; cbn [for_each]; [reflexivity|].
  unfold bind. change (future_result f w) with (outcome_of f, w).
  change (future_result f w0) with (outcome_of f, w0).
  destruct (outcome_of f) as [v|e]; [|reflexivity].
  rewrite IH. destruct (for_each future_result fs w0) as [[vs|e] w1]; reflexivity.
Qed.

(** When every call returned, so does the reading of the futures. *)
Lemma for_each_future_result_Ok fs vs (w : World) :
  map outcome_of fs = map Ok vs ->
  for_each future_result fs w = (Ok vs, w).
Proof.
  revert vs. induction fs as [|f fs IH]; intros [|v vs] H; try discriminate;
    cbn [for_each]; [reflexivity|].
  cbn [map] in H. injection H as Hf Hfs.
  unfold bind. change (future_result f w) with (outcome_of f, w).
  rewrite Hf, (IH vs Hfs). reflexivity.
Qed.

Lemma for_each_future_result_inv fs vs (w w' : World) :
  for_each future_result fs w = (Ok vs, w') ->
  map outcome_of fs = map Ok vs.
Proof.
  revert vs w'. induction fs as [|f fs IH]; intros vs w' H; cbn [for_each] in H.
  - now inversion H.
  - apply bind_inv_Ok in H. destruct H as (v & w1 & Hf & H).
    apply bind_inv_Ok in H. destruct H as (vs' & w2 & Hfs & H).
    inversion H; subst. unfold future_result in Hf. inversion Hf; subst.
    cbn [map]. f_equal; [assumption|]. eapply IH; eauto.
Qed.

(** The reduction keeps the successful results, in order. *)
Lemma successful_Some {S} outs (s : S) :
  successful (map Some outs) s = (Ok (filter success outs), s).
Proof.
  induction outs as [|o outs IH]; cbn [map successful filter]; [reflexivity|].
  destruct (success o); [|exact IH].
  unfold bind. now rewrite IH.
Qed.

Lemma successful_inv {S} results : forall succ (s s' : S),
  successful results s = (Ok succ, s') ->
  exists outs, results = map Some outs /\ succ = filter success outs.
Proof.
  induction results as [|[o|] results IH]; intros succ s s' H; cbn [successful] in H.
  - exists []. now inversion H.
  - destruct (success o) eqn:Eo.
    + apply bind_inv_Ok in H. destruct H as (tl & s1 & Htl & H). inversion H; subst.
      destruct (IH _ _ _ Htl) as (outs & -> & ->).
      exists (o :: outs). cbn [map filter]. now rewrite Eo.
    + destruct (IH _ _ _ H) as (outs & -> & ->).
      exists (o :: outs). cbn [map filter]. now rewrite Eo.
  - discriminate.
Qed.

Lemma successful_state {S} results (s s0 : S) :
  successful results s = (fst (successful results s0), s).
Proof.
  induction results as [|[o|] results IH]; cbn [successful]; try reflexivity.
  destruct (success o); [|exact IH].
  unfold bind. rewrite IH.
  destruct (successful results s0) as [[tl|e] s1]; reflexivity.
Qed.

(** The reduce step, when the pool size is not zero. *)
Lemma reduce_eq num total succ (w : World) :
  num <> 0 ->
  (success_rate <- truediv (Z.of_nat (List.length succ)) num ;;
   throughput <- match (total ?= 0)%Q with
                 | Gt => float_div (inject_Z num) total
                 | _ => ret 0%Q
                 end ;;
   avg <- match map execution_time succ with
          | [] => ret 0%Q
          | _ => statistics_mean (map execution_time succ)
          end ;;
   ret {| total_time := total;
          throughput := throughput;
          avg_calculation_time := Some avg;
          request_count := num;
          success_rate := success_rate;
          latencies := map execution_time succ |}) w
  = (Ok (summary_of num total succ), w).
Proof.
  intros Hnum. unfold summary_of, bind, truediv. cbv zeta.
  destruct (num =? 0) eqn:E; [apply Z.eqb_eq in E; contradiction|].
  unfold ret at 1.
  assert (Hthr :
    (match (total ?= 0)%Q with
     | Gt => float_div (inject_Z num) total
     | _ => ret 0%Q
     end) w
    = (Ok (match (total ?= 0)%Q with
           | Gt => (inject_Z num / total)%Q
           | _ => 0%Q
           end), w)).
  { destruct (total ?= 0)%Q eqn:Ec; try reflexivity.
    unfold float_div. destruct (Qeq_bool total 0) eqn:Eb; [|reflexivity].
    apply Qeq_bool_iff in Eb. apply Qeq_alt in Eb. congruence. }
  rewrite Hthr.
  destruct (map execution_time succ) as [|x l]; reflexivity.
Qed.

(** ** run_workload, unfolded *)

Lemma run_workload_eq cfg env num n w :
  run_workload cfg env num n w =
  if num <=? 0 then
    (Raise (mkExc ValueError "max_workers must be greater than 0"), w)
  else
    let be := env (pools w) in
    let futures := map (future_of cfg be n (now w)) (seq 0 (Z.to_nat num)) in
    let w2 := after_batch w futures in
    match fst (for_each future_result (as_completed (picks be) futures) w) with
    | Raise e => (Raise e, w2)
    | Ok results =>
        match fst (successful results w) with
        | Raise e => (Raise e, w2)
        | Ok succ => (Ok (summary_of num (now w2 - now w) succ), w2)
        end
    end.
Proof.
  unfold run_workload. unfold bind at 1. unfold world_time at 1. cbv beta iota.
  unfold bind at 1. unfold ThreadPoolExecutor.
  destruct (num <=? 0) eqn:Enum; [reflexivity|]. cbv zeta.
  unfold bind at 1. rewrite for_each_submit. cbn [now pools].
  set (be := env (pools w)).
  set (futures := map (future_of cfg be n (now w)) (seq 0 (Z.to_nat num))).
  unfold bind at 1, finally, shutdown.
  rewrite (for_each_future_result_state _ _ w). cbn [now requests pools].
  fold (after_batch w futures).
  destruct (fst (for_each future_result (as_completed (picks be) futures) w))
    as [results|e]; [|reflexivity].
  unfold bind at 1, world_time. cbv beta iota.
  unfold bind at 1. rewrite (successful_state results _ w).
  destruct (fst (successful results w)) as [succ|e]; [|reflexivity].
  apply reduce_eq. apply Z.leb_gt in Enum. lia.
Qed.

(** The outcomes of the calls of a batch, as the futures hold them. *)
Lemma outcome_of_future_of cfg be n t0 l :
  map outcome_of (map (future_of cfg be n t0) l) = map (call_outcome cfg be n t0) l.
Proof. rewrite map_map. reflexivity. Qed.

(** A batch that returns a summary had a positive size, every call of it
    returned a result, and the summary is built from these results, taken in
    their order of completion. *)
Lemma run_workload_Ok_inv cfg env num n w r w' :
  run_workload cfg env num n w = (Ok r, w') ->
  1 <= num /\
  exists outs,
    Permutation (map (fun o => Ok (Some o)) outs)
      (map (call_outcome cfg (env (pools w)) n (now w)) (seq 0 (Z.to_nat num))) /\
    r = summary_of num (now w' - now w) (filter success outs) /\
    w' = after_batch w
           (map (future_of cfg (env (pools w)) n (now w)) (seq 0 (Z.to_nat num))).
Proof.
  rewrite run_workload_eq. destruct (num <=? 0) eqn:Enum; [discriminate|].
  apply Z.leb_gt in Enum. cbv zeta.
  destruct (fst (for_each future_result _ w)) as [results|e] eqn:Er; [|discriminate].
  destruct (fst (successful results w)) as [succ|e] eqn:Es; [|discriminate].
  intros H. inversion H; subst. clear H. split; [lia|].
  destruct (successful results w) as [x s1] eqn:Es'. cbn [fst] in Es. subst x.
  apply successful_inv in Es'. destruct Es' as (outs & -> & ->).
  destruct (for_each future_result _ w) as [x w1] eqn:Er'. cbn [fst] in Er. subst x.
  apply for_each_future_result_inv in Er'.
  exists outs. split; [|split; reflexivity].
  rewrite <- outcome_of_future_of, <- (map_map Some Ok), <- Er'.
  apply Permutation_map, as_completed_perm.
Qed.

(** A batch of positive size whose calls all returned a result returns a
    summary. *)
Lemma run_workload_returns cfg env num n w :
  1 <= num ->
  (forall i, (i < Z.to_nat num)%nat ->
     exists o, call_outcome cfg (env (pools w)) n (now w) i = Ok (Some o)) ->
  exists r w', run_workload cfg env num n w = (Ok r, w').
Proof.
  intros Hnum Hcalls. rewrite run_workload_eq.
  replace (num <=? 0) with false by (symmetry; apply Z.leb_gt; lia). cbv zeta.
  set (be := env (pools w)) in *.
  set (futures := map (future_of cfg be n (now w)) (seq 0 (Z.to_nat num))).
  assert (Hall : Forall (fun f => exists o, outcome_of f = Ok (Some o))
                   (as_completed (picks be) futures)).
  { eapply Permutation_Forall; [apply Permutation_sym, as_completed_perm|].
    unfold futures. apply Forall_map, Forall_forall. intros i Hi.
    apply in_seq in Hi. cbn [future_of outcome_of]. apply Hcalls. lia. }
  assert (Houts : exists outs,
             map outcome_of (as_completed (picks be) futures) = map Ok (map Some outs)).
  { induction Hall as [|f fs [o Ho] _ [outs IH]].
    - now exists [].
    - exists (o :: outs). cbn [map]. now rewrite Ho, IH. }
  destruct Houts as [outs Houts].
  rewrite (for_each_future_result_Ok _ _ w Houts). cbn [fst].
  rewrite successful_Some. cbn [fst]. eauto.
Qed.

(** ** Arithmetic of the summary *)

(** [round] gives back an integer. *)
Lemma py_round_integer (x : Q) (k : Z) : (x == inject_Z k)%Q -> py_round x = k.
Proof.
  intros H.
  assert (Hf : Qfloor x = k) by (rewrite H; apply Qfloor_Z).
  assert (Hc : (x - inject_Z k ?= 1 # 2)%Q = Lt).
  { apply Qlt_alt. rewrite H.
    setoid_replace (inject_Z k - inject_Z k)%Q with 0%Q by ring. reflexivity. }
  unfold py_round. cbv zeta. now rewrite Hf, Hc.
Qed.

Lemma ratio_bounds (a b : Z) :
  0 <= a <= b -> 0 < b ->
  (0 <= inject_Z a / inject_Z b <= 1)%Q.
Proof.
  intros Ha Hb.
  assert (Hb' : (0 < inject_Z b)%Q) by (change 0%Q with (inject_Z 0); now rewrite <- Zlt_Qlt).
  split.
  - apply Qle_shift_div_l; [exact Hb'|]. rewrite Qmult_0_l.
    change 0%Q with (inject_Z 0). rewrite <- Zle_Qle. lia.
  - apply Qle_shift_div_r; [exact Hb'|]. rewrite Qmult_1_l.
    rewrite <- Zle_Qle. lia.
Qed.

Lemma ratio_times (a b : Z) :
  b <> 0 -> (inject_Z a / inject_Z b * inject_Z b == inject_Z a)%Q.
Proof.
  intros Hb. field. intros H. apply Hb.
  unfold Qeq in H. cbn in H. lia.
Qed.

Lemma filter_perm {A} (f : A -> bool) (l l' : list A) :
  Permutation l l' -> Permutation (filter f l) (filter f l').
Proof.
  induction 1 as [|x l l' _ IH|x y l|l l' l'' _ IH1 _ IH2]; cbn [filter].
  - apply perm_nil.
  - destruct (f x); [apply perm_skip|]; exact IH.
  - destruct (f x), (f y); try apply Permutation_refl. apply perm_swap.
  - eapply perm_trans; eauto.
Qed.

Lemma filter_succeeded outs :
  filter succeeded (map (fun o => Ok (Some o)) outs)
  = map (fun o => Ok (Some o)) (filter success outs).
Proof.
  induction outs as [|o outs IH]; cbn [map filter succeeded]; [reflexivity|].
  destruct (success o); cbn [map]; now rewrite IH.
Qed.

(** The results a summary is built from are those of the calls of the batch. *)
Lemma summary_counts cfg be n t0 N outs :
  Permutation (map (fun o => Ok (Some o)) outs)
    (map (call_outcome cfg be n t0) (seq 0 N)) ->
  List.length outs = N /\
  List.length (filter success outs)
  = List.length (filter succeeded (map (call_outcome cfg be n t0) (seq 0 N))).
Proof.
  intros H. split.
  - apply Permutation_length in H. now rewrite !length_map, length_seq in H.
  - apply (filter_perm succeeded), Permutation_length in H.
    now rewrite filter_succeeded, length_map in H.
Qed.

Lemma filter_length_le {A} (f : A -> bool) (l : list A) :
  (List.length (filter f l) <= List.length l)%nat.
Proof.
  induction l as [|x l IH]; cbn [filter List.length]; [lia|].
  destruct (f x); cbn [List.length]; lia.
Qed.

(** When no call succeeded, nothing is kept by the reduction. *)
Lemma no_success_filter cfg be n t0 N outs :
  Permutation (map (fun o => Ok (Some o)) outs)
    (map (call_outcome cfg be n t0) (seq 0 N)) ->
  (forall i o, (i < N)%nat -> call_outcome cfg be n t0 i = Ok (Some o) ->
               success o = false) ->
  filter success outs = [].
Proof.
  intros Hperm Hfail.
  assert (Hall : forall o, In o outs -> success o = false).
  { intros o Ho.
    assert (Hin : In (Ok (Some o)) (map (call_outcome cfg be n t0) (seq 0 N))).
    { eapply Permutation_in; [exact Hperm|]. now apply (in_map (fun o => Ok (Some o))). }
    apply in_map_iff in Hin. destruct Hin as (i & Hi & Hseq).
    apply in_seq in Hseq. eapply Hfail; eauto. lia. }
  clear Hperm. induction outs as [|o outs IH]; cbn [filter]; [reflexivity|].
  rewrite (Hall o (or_introl eq_refl)). apply IH. intros o' Ho'. apply Hall. now right.
Qed.

(** Under a budget of at least one attempt and a polite network, every call
    of a batch returns a result. *)
Lemma calls_return cfg env n w :
  1 <= MAX_RETRIES cfg -> polite_at cfg env ->
  forall i, exists o, call_outcome cfg (env (pools w)) n (now w) i = Ok (Some o).
Proof.
  intros Hmax Hpol i. unfold call_outcome.
  destruct (send_request_cases cfg (call_env (env (pools w)) i) n (TIMEOUT cfg)
              (fresh_thread (now w)) Hmax (Hpol _ _))
    as [(j & d & _ & _ & Heq)|(e & _ & _ & Heq)]; rewrite Heq; cbn [fst];
    eexists; reflexivity.
Qed.




(** ** The claims on a batch *)

(** C1, as the code has it.  At a level where no call succeeded, the summary
    holds the number 0 as its [avg_calculation_time], with a [success_rate]
    of 0 and no latencies: the absence of data is not marked. *)
Theorem mean_latency_is_zero_without_success cfg env num n w :
  1 <= num ->
  (forall i, (i < Z.to_nat num)%nat ->
     exists o, call_outcome cfg (env (pools w)) n (now w) i = Ok (Some o) /\
               success o = false) ->
  exists r w',
    run_workload cfg env num n w = (Ok r, w') /\
    (success_rate r == 0)%Q /\
    latencies r = [] /\
    avg_calculation_time r = Some 0%Q.
Proof.
  intros Hnum Hfail.
  destruct (run_workload_returns cfg env num n w Hnum) as (r & w' & Hrun).
  { intros i Hi. destruct (Hfail i Hi) as (o & Ho & _). now exists o. }
  exists r, w'. split; [exact Hrun|].
  apply run_workload_Ok_inv in Hrun. destruct Hrun as (_ & outs & Hperm & -> & _).
  cbn [summary_of success_rate latencies avg_calculation_time].
  rewrite (no_success_filter _ _ _ _ _ _ Hperm).
  - split; [|split; reflexivity]. cbn [List.length Z.of_nat].
    unfold Qdiv. change (inject_Z 0) with 0%Q. ring.
  - intros i o Hi Ho. destruct (Hfail i Hi) as (o' & Ho' & Hs). congruence.
Qed.

Lemma all_fail_call_outcome n t0 i :
  exists o, call_outcome CONFIG (all_fail 0%nat) n t0 i = Ok (Some o) /\ success o = false.
Proof. eexists. split; reflexivity. Qed.

Lemma mean_latency_is_zero_without_success_witness :
  exists r w',
    run_workload CONFIG all_fail 5 100000 world0 = (Ok r, w') /\
    (success_rate r == 0)%Q /\
    latencies r = [] /\
    avg_calculation_time r = Some 0%Q.
Proof.
  apply (mean_latency_is_zero_without_success CONFIG all_fail 5 100000 world0).
  - lia.
  - intros i _. apply all_fail_call_outcome.
Defined.

(** C1, as the spec has it, fails: five calls that all fail give a summary
    whose [avg_calculation_time] is the number 0, not [None]. *)
Lemma mean_latency_not_marked_absent :
  exists r w',
    run_workload CONFIG all_fail 5 100000 world0 = (Ok r, w') /\
    (success_rate r == 0)%Q /\
    latencies r = [] /\
    avg_calculation_time r = Some 0%Q /\
    avg_calculation_time r <> None.
Proof.
  eexists; eexists. split; [vm_compute; reflexivity|].
  repeat split; try reflexivity. discriminate.
Qed.

(** C6. Every summary returned by [run_workload] has a [success_rate]
    between 0 and 1, as many latencies as [round(success_rate *
    request_count)], and for latencies the [execution_time]s of the successful
    results of the calls of the batch, in their order of completion. *)
Theorem summary_invariant cfg env num n w r w' :
  run_workload cfg env num n w = (Ok r, w') ->
  (0 <= success_rate r <= 1)%Q /\
  Z.of_nat (List.length (latencies r))
  = py_round (success_rate r * inject_Z (request_count r)) /\
  exists outs,
    Permutation (map (fun o => Ok (Some o)) outs)
      (map (call_outcome cfg (env (pools w)) n (now w)) (seq 0 (Z.to_nat num))) /\
    latencies r = map execution_time (filter success outs).
Proof.
  intros Hrun. apply run_workload_Ok_inv in Hrun.
  destruct Hrun as (Hnum & outs & Hperm & -> & _).
  destruct (summary_counts _ _ _ _ _ _ Hperm) as [Hlen _].
  pose proof (filter_length_le success outs) as Hle.
  cbn [summary_of success_rate latencies request_count]. rewrite length_map.
  split; [|split].
  - apply ratio_bounds; lia.
  - symmetry. apply py_round_integer, ratio_times. lia.
  - exists outs. split; [exact Hperm|reflexivity].
Qed.

Lemma summary_invariant_witness :
  exists r w',
    run_workload CONFIG mixed 6 100000 world0 = (Ok r, w') /\
    (0 <= success_rate r <= 1)%Q /\
    Z.of_nat (List.length (latencies r))
    = py_round (success_rate r * inject_Z (request_count r)) /\
    exists outs,
      Permutation (map (fun o => Ok (Some o)) outs)
        (map (call_outcome CONFIG (mixed (pools world0)) 100000 (now world0))
           (seq 0 (Z.to_nat 6))) /\
      latencies r = map execution_time (filter success outs).
Proof.
  eexists; eexists. split; [vm_compute; reflexivity|].
  eapply (summary_invariant CONFIG mixed 6 100000 world0). vm_compute. reflexivity.
Defined.

(** C10. [run_workload] needs a positive [num_requests]: with 0 (or less)
    the worker pool refuses its size and the function raises [ValueError]
    before any call is made, and the division that computes [success_rate]
    raises on 0; no summary is returned. *)
Theorem run_workload_rejects_empty_batch cfg env num n w :
  num <= 0 ->
  (exists e, run_workload cfg env num n w = (Raise e, w) /\ exc_class e = ValueError) /\
  (num = 0 ->
   forall k (s : World),
     exists e, truediv k num s = (Raise e, s) /\ exc_class e = ZeroDivisionError).
Proof.
  intros Hnum. split.
  - rewrite run_workload_eq.
    replace (num <=? 0) with true by (symmetry; apply Z.leb_le; lia).
    eexists. split; reflexivity.
  - intros -> k s. eexists. split; reflexivity.
Qed.

Lemma run_workload_rejects_empty_batch_witness :
  (exists e, run_workload CONFIG all_fail 0 100000 world0 = (Raise e, world0) /\
             exc_class e = ValueError) /\
  (0 = 0 ->
   forall k (s : World),
     exists e, truediv k 0 s = (Raise e, s) /\ exc_class e = ZeroDivisionError).
Proof.
  apply (run_workload_rejects_empty_batch CONFIG all_fail 0 100000 world0). lia.
Defined.

(** ** The sweep *)

Lemma attempts_time_pos cfg ce n timeout m from :
  (forall url n timeout j, (0 < took (attempt_of ce url n timeout j))%Q) ->
  (0 < attempts_time cfg ce n timeout from (S m))%Q.
Proof.
  intros Hpos. cbn [attempts_time].
  assert (Hrest : forall k i, (0 <= attempts_time cfg ce n timeout i k)%Q).
  { induction k as [|k IH]; intros i; cbn [attempts_time].
    - apply Qle_refl.
    - specialize (IH (S i)). specialize (Hpos (sum_url cfg) n timeout i). lra. }
  specialize (Hrest m (S from)). specialize (Hpos (sum_url cfg) n timeout from). lra.
Qed.

Lemma sleeps_time_nonneg ce m : forall from,
  (forall j, (0 <= lag ce j)%Q) -> (0 <= sleeps_time ce from m)%Q.
Proof.
  induction m as [|m IH]; intros from Hlag; cbn [sleeps_time].
  - apply Qle_refl.
  - specialize (IH (S from) Hlag). specialize (Hlag from). lra.
Qed.

(** A call that makes an attempt ends after it started. *)
Lemma send_request_takes_time cfg ce n timeout t :
  1 <= MAX_RETRIES cfg ->
  request_exceptions_only ce (sum_url cfg) timeout ->
  (forall url n timeout j, (0 < took (attempt_of ce url n timeout j))%Q) ->
  (forall j, (0 <= lag ce j)%Q) ->
  (clock t < clock (snd (send_request cfg ce n timeout t)))%Q.
Proof.
  intros Hmax Hce Hpos Hlag.
  destruct (send_request_cases cfg ce n timeout t Hmax Hce)
    as [(j & d & _ & _ & Heq)|(e & _ & _ & Heq)]; rewrite Heq; cbn [snd];
    rewrite clock_after_attempts;
    match goal with
    | |- context [attempts_time _ _ _ _ ?from (S ?m)] =>
        pose proof (attempts_time_pos cfg ce n timeout m from Hpos)
    end;
    match goal with
    | |- context [sleeps_time _ ?from ?m] =>
        pose proof (sleeps_time_nonneg ce m from Hlag)
    end; lra.
Qed.

(** A batch that returns under these conditions took some time. *)
Lemma run_workload_total_time cfg env num n w r w' :
  1 <= MAX_RETRIES cfg -> polite_at cfg env -> takes_time env ->
  run_workload cfg env num n w = (Ok r, w') ->
  (0 < total_time r)%Q.
Proof.
  intros Hmax Hpol Htime Hrun. apply run_workload_Ok_inv in Hrun.
  destruct Hrun as (Hnum & outs & _ & -> & ->).
  cbn [summary_of total_time].
  destruct (Z.to_nat num) as [|N] eqn:EN; [lia|].
  cbn [seq map after_batch now fold_right].
  set (rest := fold_right _ _ _).
  pose proof (Q.le_max_l
                (finished_at (future_of cfg (env (pools w)) n (now w) 0)) rest) as Hmaxl.
  assert (Hcall : (now w < finished_at (future_of cfg (env (pools w)) n (now w) 0))%Q).
  { cbn [future_of finished_at]. destruct (Htime (pools w) 0%nat) as [Hpos Hlag].
    apply (send_request_takes_time cfg (call_env (env (pools w)) 0) n (TIMEOUT cfg)
             (fresh_thread (now w)) Hmax (Hpol _ _) Hpos Hlag). }
  lra.
Qed.

(** With a budget of at least one attempt, a polite network and levels that
    are all positive, the loop of [main] returns the summaries of the sweep,
    one for each level, in order. *)
Lemma main_loop_returns cfg env :
  1 <= MAX_RETRIES cfg -> polite_at cfg env ->
  forall counts acc w,
    Forall (fun c => 1 <= c) counts ->
    exists rs w',
      main_loop cfg env counts acc w = (Ok (acc ++ rs)%list, w') /\
      sweep cfg env counts w rs w' /\
      map request_count rs = counts /\
      (takes_time env -> Forall (fun r => (0 < total_time r)%Q) rs).
Proof.
  intros Hmax Hpol counts.
  induction counts as [|c counts IH]; intros acc w Hall; cbn [main_loop].
  - exists [], w. rewrite app_nil_r. repeat split; auto. constructor.
  - inversion Hall as [|c' counts' Hc Hrest]; subst.
    destruct (run_workload_returns cfg env c (DEFAULT_N_VALUE cfg) w Hc) as (r & w1 & Hrun).
    { intros i _. apply calls_return; assumption. }
    destruct (IH (acc ++ [r])%list w1 Hrest) as (rs & w' & Hloop & Hsweep & Hmap & Htimes).
    exists (r :: rs), w'. split; [|split; [|split]].
    + rewrite (bind_Ok _ _ _ _ _ Hrun), Hloop. now rewrite <- app_assoc.
    + econstructor; eauto.
    + cbn [map]. f_equal; [|exact Hmap].
      apply run_workload_Ok_inv in Hrun. now destruct Hrun as (_ & outs & _ & -> & _).
    + intros Htime. constructor; [|now apply Htimes].
      eapply run_workload_total_time; eauto.
Qed.


(** The loop of [main] returns nothing but the summaries of the sweep. *)
Lemma main_loop_sweep cfg env counts : forall acc w rs w',
  main_loop cfg env counts acc w = (Ok rs, w') ->
  exists new, rs = (acc ++ new)%list /\ sweep cfg env counts w new w'.
Proof.
  induction counts as [|c counts IH]; intros acc w rs w' H; cbn [main_loop] in H.
  - inversion H; subst. exists []. rewrite app_nil_r. split; [reflexivity|constructor].
  - apply bind_inv_Ok in H. destruct H as (r & w1 & Hrun & Hloop).
    destruct (IH _ _ _ _ Hloop) as (new & -> & Hsweep).
    exists (r :: new). rewrite <- app_assoc. split; [reflexivity|].
    econstructor; eauto.
Qed.


(** *** The plots *)

Lemma for_each_float_div_Ok (a : Q) (results : list WorkloadResult) (w : World) :
  Forall (fun r => ~ (total_time r == 0)%Q) results ->
  for_each (fun r => float_div a (total_time r)) results w
  = (Ok (map (fun r => (a / total_time r)%Q) results), w).
Proof.
  induction 1 as [|r l Hr _ IH]; cbn [for_each map]; [reflexivity|].
  unfold bind at 1, float_div at 1.
  destruct (Qeq_bool (total_time r) 0) eqn:E.
  - apply Qeq_bool_iff in E. contradiction.
  - unfold ret at 1. unfold bind. now rewrite IH.
Qed.

Lemma for_each_float_div_Raise (a : Q) (results : list WorkloadResult) (w : World) :
  Exists (fun r => (total_time r == 0)%Q) results ->
  exists e,
    for_each (fun r => float_div a (total_time r)) results w = (Raise e, w) /\
    exc_class e = ZeroDivisionError.
Proof.
  induction results as [|r l IH]; intros Hex; [inversion Hex|].
  cbn [for_each]. unfold bind at 1, float_div at 1.
  destruct (Qeq_bool (total_time r) 0) eqn:E.
  - eexists. split; reflexivity.
  - assert (Hl : Exists (fun r => (total_time r == 0)%Q) l).
    { inversion Hex as [? ? Hr|? ? Hl]; subst; [|exact Hl].
      apply Qeq_bool_iff in Hr. congruence. }
    destruct (IH Hl) as (e & He & Hcls). exists e. split; [|exact Hcls].
    unfold ret at 1. unfold bind. now rewrite He.
Qed.

(** A list of summaries has a zero [total_time] in it, or none. *)
Lemma zero_total_time_dec (results : list WorkloadResult) :
  Forall (fun r => ~ (total_time r == 0)%Q) results \/
  Exists (fun r => (total_time r == 0)%Q) results.
Proof.
  induction results as [|r l [IH|IH]].
  - left. constructor.
  - destruct (Qeq_dec (total_time r) 0) as [Hz|Hnz].
    + right. now constructor.
    + left. now constructor.
  - right. now constructor 2.
Qed.

Lemma speedups_of_Ok results (w : World) :
  Forall (fun r => ~ (total_time r == 0)%Q) results ->
  exists l, speedups_of results w = (Ok l, w).
Proof.
  intros Hall. unfold speedups_of. destruct results as [|first rest].
  - now exists [].
  - eexists. now apply for_each_float_div_Ok.
Qed.

Lemma speedups_of_Raise results (w : World) :
  Exists (fun r => (total_time r == 0)%Q) results ->
  exists e, speedups_of results w = (Raise e, w) /\ exc_class e = ZeroDivisionError.
Proof.
  intros Hex. unfold speedups_of. destruct results as [|first rest]; [inversion Hex|].
  now apply for_each_float_div_Raise.
Qed.

Lemma keeps_bind {A B} (m : M World A) (k : A -> M World B) :
  keeps m -> (forall a, keeps (k a)) -> keeps (bind m k).
Proof.
  intros Hm Hk w. unfold bind. specialize (Hm w).
  destruct (m w) as [[a|e] w1]; cbn [snd] in *; subst w1; [apply Hk|reflexivity].
Qed.

Lemma keeps_pyplot plt c : keeps (pyplot plt c).
Proof. intros w. unfold pyplot. now destruct (plt c). Qed.

Lemma keeps_speedups_of results : keeps (speedups_of results).
Proof.
  intros w. destruct (zero_total_time_dec results) as [Hall|Hex].
  - destruct (speedups_of_Ok results w Hall) as [l ->]. reflexivity.
  - destruct (speedups_of_Raise results w Hex) as (e & -> & _). reflexivity.
Qed.

(** The plots leave the world as it is, whatever the library does. *)
Lemma create_and_display_plots_state plt results (w : World) x w' :
  create_and_display_plots plt results w = (x, w') -> w' = w.
Proof.
  intros H.
  assert (Hk : keeps (create_and_display_plots plt results)).
  { unfold create_and_display_plots.
    repeat (apply keeps_bind; [apply keeps_pyplot|intros _]).
    apply keeps_bind; [apply keeps_speedups_of|intros speedups].
    repeat (apply keeps_bind; [apply keeps_pyplot|intros _]).
    apply keeps_bind.
    - destruct (valid_results_of results) as [|v vs]; [apply keeps_pyplot|].
      destruct (split (v :: vs)) as [counts latencies].
      repeat (apply keeps_bind; [apply keeps_pyplot|intros _]). apply keeps_pyplot.
    - intros _. apply keeps_bind; [apply keeps_pyplot|intros _]. apply keeps_pyplot. }
  specialize (Hk w). rewrite H in Hk. now cbn in Hk.
Qed.

Lemma bind_pyplot {B} plt c (k : unit -> M World B) (w : World) :
  draws plt -> bind (pyplot plt c) k w = k tt w.
Proof. intros H. unfold bind, pyplot. now rewrite H. Qed.

Lemma pyplot_draws plt c (w : World) : draws plt -> pyplot plt c w = (Ok tt, w).
Proof. intros H. unfold pyplot. now rewrite H. Qed.

(** With a library that draws, the plots end as the speedups do. *)
Lemma create_and_display_plots_eq plt results (w : World) :
  draws plt ->
  create_and_display_plots plt results w =
  match fst (speedups_of results w) with
  | Ok _ => (Ok tt, w)
  | Raise e => (Raise e, w)
  end.
Proof.
  intros Hd. unfold create_and_display_plots.
  repeat (rewrite (bind_pyplot plt _ _ _ Hd)).
  unfold bind at 1. pose proof (keeps_speedups_of results w) as Hw.
  destruct (speedups_of results w) as [[l|e] w1]; cbn [fst snd] in *; subst w1;
    [|reflexivity].
  repeat (rewrite (bind_pyplot plt _ _ _ Hd)).
  unfold bind at 1.
  assert (Hbox : (match valid_results_of results with
                  | [] =>
                      pyplot plt
                        (plt_text (1 # 2) (1 # 2)
                           "No successful requests to display latency data" "center" "center")
                  | _ :: _ =>
                      let (counts, latencies) := split (valid_results_of results) in
                      pyplot plt (plt_boxplot latencies (map string_of_Z counts)) ;;;
                      pyplot plt
                        (plt_title
                           ("Latency Distribution" ++
                            String "010"%char "(Successful Requests Only)")) ;;;
                      pyplot plt (plt_xlabel "Number of Requests") ;;;
                      pyplot plt (plt_ylabel "Latency (s)") ;;;
                      pyplot plt (plt_xticks 45) ;;;
                      pyplot plt (plt_grid true)
                  end) w = (Ok tt, w)).
  { destruct (valid_results_of results) as [|v vs]; [now apply pyplot_draws|].
    destruct (split (v :: vs)) as [counts latencies].
    repeat (rewrite (bind_pyplot plt _ _ _ Hd)). now apply pyplot_draws. }
  rewrite Hbox. rewrite (bind_pyplot plt _ _ _ Hd). now apply pyplot_draws.
Qed.

(** The plots are drawn when the library draws and no batch took no time. *)
Lemma create_and_display_plots_returns plt results (w : World) :
  draws plt ->
  Forall (fun r => (0 < total_time r)%Q) results ->
  create_and_display_plots plt results w = (Ok tt, w).
Proof.
  intros Hd Hall. rewrite (create_and_display_plots_eq plt results w Hd).
  assert (Hnz : Forall (fun r => ~ (total_time r == 0)%Q) results).
  { eapply Forall_impl; [|exact Hall]. intros r Hr Hz.
    apply Qlt_not_eq in Hr. apply Hr. now symmetry. }
  destruct (speedups_of_Ok results w Hnz) as [l ->]. reflexivity.
Qed.

Lemma all_fail_takes_time : takes_time all_fail.
Proof. intros k i. split; intros; cbn; reflexivity || discriminate. Qed.


(** With positive levels, a budget of at least one attempt and a polite
    network, [main] comes to its plots with the summaries of the sweep: what
    it does from there is what the plots do. *)
Lemma main_reaches_plots cfg env plt w :
  1 <= MAX_RETRIES cfg -> polite_at cfg env ->
  Forall (fun c => 1 <= c) (REQUEST_COUNTS cfg) ->
  exists rs w',
    sweep cfg env (REQUEST_COUNTS cfg) w rs w' /\
    map request_count rs = REQUEST_COUNTS cfg /\
    (takes_time env -> Forall (fun r => (0 < total_time r)%Q) rs) /\
    main cfg env plt w = (create_and_display_plots plt rs ;;; ret rs) w'.
Proof.
  intros Hmax Hpol Hall.
  destruct (main_loop_returns cfg env Hmax Hpol (REQUEST_COUNTS cfg) [] w Hall)
    as (rs & w' & Hloop & Hsweep & Hmap & Htimes).
  exists rs, w'. split; [exact Hsweep|]. split; [exact Hmap|]. split; [exact Htimes|].
  unfold main. now rewrite (bind_Ok _ _ _ _ _ Hloop).
Qed.

(** When moreover the attempts take time and the library draws, [main]
    returns these summaries. *)
Lemma main_returns cfg env plt w :
  1 <= MAX_RETRIES cfg -> polite_at cfg env -> takes_time env -> draws plt ->
  Forall (fun c => 1 <= c) (REQUEST_COUNTS cfg) ->
  exists rs w',
    main cfg env plt w = (Ok rs, w') /\
    sweep cfg env (REQUEST_COUNTS cfg) w rs w' /\
    map request_count rs = REQUEST_COUNTS cfg.
Proof.
  intros Hmax Hpol Htime Hd Hall.
  destruct (main_reaches_plots cfg env plt w Hmax Hpol Hall)
    as (rs & w' & Hsweep & Hmap & Htimes & Hmain).
  exists rs, w'. split; [|split; [exact Hsweep|exact Hmap]].
  rewrite Hmain.
  rewrite (bind_Ok _ _ _ _ _
             (create_and_display_plots_returns plt rs w' Hd (Htimes Htime))).
  reflexivity.
Qed.

(** * Further properties *)

(** ** The request executor: every way a call can end *)

(** The clock at the end of a call, by the number of its retries. *)
Lemma elapsed_lower_bound cfg ce n timeout k t :
  clock_advances ce ->
  (inject_Z (Z.of_nat k)
   <= clock (after_get ce (sum_url cfg) n timeout (after_retries cfg ce n timeout k t))
      - clock t)%Q.
Proof.
  intros Hclock. rewrite clock_after_attempts.
  pose proof (attempts_time_nonneg cfg ce n timeout (S k) (attempts t) Hclock).
  pose proof (sleeps_time_lower ce k (sleeps t) Hclock). lra.
Qed.

(** X1. However a call with a budget ends (a result or an exception), it made
    between 1 and [MAX_RETRIES] attempts, all to [BASE_URL/sum] with the same
    parameter and timeout, and slept exactly one second between two
    consecutive attempts and at no other time. *)
Theorem send_request_accounting cfg ce n timeout t res t' :
  1 <= MAX_RETRIES cfg ->
  send_request cfg ce n timeout t = (res, t') ->
  exists a,
    (1 <= a <= Z.to_nat (MAX_RETRIES cfg))%nat /\
    attempts t' = (attempts t + a)%nat /\
    sleeps t' = (sleeps t + (a - 1))%nat /\
    log t' = (log t ++ retries_log cfg n timeout (a - 1)
                ++ [EvGet (sum_url cfg) n timeout])%list.
Proof.
  intros Hmax Hrun.
  destruct (send_request_outcome cfg ce n timeout t Hmax) as (k & Hk & _ & Hend).
  cbv zeta in Hend.
  assert (Ht' : t' = after_get ce (sum_url cfg) n timeout
                       (after_retries cfg ce n timeout k t)).
  { destruct Hend as [(d & _ & Heq)|[(e & _ & _ & Heq)|(e & _ & _ & Heq)]];
      rewrite Heq in Hrun; now inversion Hrun. }
  subst t'. exists (S k). replace (S k - 1)%nat with k by lia.
  rewrite attempts_after_get, sleeps_after_get, log_after_get.
  rewrite attempts_after_retries, sleeps_after_retries, log_after_retries.
  repeat split; try lia. now rewrite <- app_assoc.
Qed.

Lemma send_request_accounting_witness :
  exists a,
    (1 <= a <= Z.to_nat (MAX_RETRIES CONFIG))%nat /\
    attempts (snd (send_request CONFIG (flaky 1) 7 30 (fresh_thread 0)))
    = (attempts (fresh_thread 0) + a)%nat /\
    sleeps (snd (send_request CONFIG (flaky 1) 7 30 (fresh_thread 0)))
    = (sleeps (fresh_thread 0) + (a - 1))%nat /\
    log (snd (send_request CONFIG (flaky 1) 7 30 (fresh_thread 0)))
    = (log (fresh_thread 0) ++ retries_log CONFIG 7 30 (a - 1)
         ++ [EvGet (sum_url CONFIG) 7 30])%list.
Proof.
  apply (send_request_accounting CONFIG (flaky 1) 7 30 (fresh_thread 0)
           (fst (send_request CONFIG (flaky 1) 7 30 (fresh_thread 0)))).
  - cbn. lia.
  - apply surjective_pairing.
Defined.

(** X2. A result with [success = False] is returned only when the whole budget
    is used up: exactly [MAX_RETRIES] attempts were made, every one of them
    failed with a [RequestException], the result carries the description of
    the last one, and, when the clock does not run backwards, its
    [execution_time] is at least [MAX_RETRIES - 1] seconds. *)
Theorem failure_uses_whole_budget cfg ce n timeout t r t' :
  send_request cfg ce n timeout t = (Ok (Some r), t') ->
  success r = false ->
  attempts t' = (attempts t + Z.to_nat (MAX_RETRIES cfg))%nat /\
  (forall j, (j < Z.to_nat (MAX_RETRIES cfg))%nat ->
     exists e, fails_with (sum_url cfg)
                 (attempt_of ce (sum_url cfg) n timeout (attempts t + j)) e) /\
  (exists e,
     fails_with (sum_url cfg)
       (attempt_of ce (sum_url cfg) n timeout
          (attempts t + (Z.to_nat (MAX_RETRIES cfg) - 1))) e /\
     error r = Some (str e)) /\
  (clock_advances ce -> (inject_Z (MAX_RETRIES cfg - 1) <= execution_time r)%Q).
Proof.
  intros Hrun Hfalse.
  pose proof (send_request_Some_budget _ _ _ _ _ _ _ Hrun) as Hmax.
  destruct (send_request_outcome cfg ce n timeout t Hmax) as (k & Hk & Hbefore & Hend).
  cbv zeta in Hend.
  destruct Hend as [(d & _ & Heq)|[(e & He & Hlast & Heq)|(e & _ & _ & Heq)]];
    rewrite Heq in Hrun; inversion Hrun; subst r t'; clear Hrun; try discriminate.
  rewrite attempts_after_get, attempts_after_retries.
  split; [lia|]. split; [|split].
  - intros j Hj. destruct (Nat.eq_dec j k) as [->|Hne]; [now exists e|].
    apply Hbefore. lia.
  - exists e. rewrite <- Hlast. now split.
  - intros Hclock. cbn [failure_result execution_time].
    pose proof (elapsed_lower_bound cfg ce n timeout k t Hclock) as Hlow.
    replace (MAX_RETRIES cfg - 1) with (Z.of_nat k) by lia. exact Hlow.
Qed.

Lemma failure_uses_whole_budget_witness :
  exists r t',
    send_request CONFIG always_fail 7 30 (fresh_thread 0) = (Ok (Some r), t') /\
    attempts t' = (attempts (fresh_thread 0) + Z.to_nat (MAX_RETRIES CONFIG))%nat /\
    (forall j, (j < Z.to_nat (MAX_RETRIES CONFIG))%nat ->
       exists e, fails_with (sum_url CONFIG)
                   (attempt_of always_fail (sum_url CONFIG) 7 30
                      (attempts (fresh_thread 0) + j)) e) /\
    (exists e,
       fails_with (sum_url CONFIG)
         (attempt_of always_fail (sum_url CONFIG) 7 30
            (attempts (fresh_thread 0) + (Z.to_nat (MAX_RETRIES CONFIG) - 1))) e /\
       error r = Some (str e)) /\
    (clock_advances always_fail ->
     (inject_Z (MAX_RETRIES CONFIG - 1) <= execution_time r)%Q).
Proof.
  eexists; eexists. split; [vm_compute; reflexivity|].
  eapply (failure_uses_whole_budget CONFIG always_fail 7 30 (fresh_thread 0)).
  - vm_compute. reflexivity.
  - reflexivity.
Defined.

(** X3. A result with [success = True] comes from the first attempt that was
    answered: the attempts before it all failed with a [RequestException],
    its decoded body is the payload, and no attempt is made after it. *)
Theorem success_is_first_answer cfg ce n timeout t r t' :
  send_request cfg ce n timeout t = (Ok (Some r), t') ->
  success r = true ->
  exists k d,
    (k < Z.to_nat (MAX_RETRIES cfg))%nat /\
    (forall j, (j < k)%nat ->
       exists e, fails_with (sum_url cfg)
                   (attempt_of ce (sum_url cfg) n timeout (attempts t + j)) e) /\
    attempt_value (sum_url cfg)
      (attempt_of ce (sum_url cfg) n timeout (attempts t + k)) = Ok d /\
    response_data r = d /\
    error r = None /\
    attempts t' = (attempts t + k + 1)%nat /\
    sleeps t' = (sleeps t + k)%nat.
Proof.
  intros Hrun Htrue.
  pose proof (send_request_Some_budget _ _ _ _ _ _ _ Hrun) as Hmax.
  destruct (send_request_outcome cfg ce n timeout t Hmax) as (k & Hk & Hbefore & Hend).
  cbv zeta in Hend.
  destruct Hend as [(d & Hd & Heq)|[(e & He & Hlast & Heq)|(e & _ & _ & Heq)]];
    rewrite Heq in Hrun; inversion Hrun; subst r t'; clear Hrun; try discriminate.
  exists k, d. rewrite attempts_after_get, sleeps_after_get.
  rewrite attempts_after_retries, sleeps_after_retries.
  repeat split; auto; lia.
Qed.

Lemma success_is_first_answer_witness :
  exists r t',
    send_request CONFIG (flaky 2) 7 30 (fresh_thread 0) = (Ok (Some r), t') /\
    exists k d,
      (k < Z.to_nat (MAX_RETRIES CONFIG))%nat /\
      (forall j, (j < k)%nat ->
         exists e, fails_with (sum_url CONFIG)
                     (attempt_of (flaky 2) (sum_url CONFIG) 7 30
                        (attempts (fresh_thread 0) + j)) e) /\
      attempt_value (sum_url CONFIG)
        (attempt_of (flaky 2) (sum_url CONFIG) 7 30 (attempts (fresh_thread 0) + k)) = Ok d /\
      response_data r = d /\
      error r = None /\
      attempts t' = (attempts (fresh_thread 0) + k + 1)%nat /\
      sleeps t' = (sleeps (fresh_thread 0) + k)%nat.
Proof.
  eexists; eexists. split; [vm_compute; reflexivity|].
  eapply (success_is_first_answer CONFIG (flaky 2) 7 30 (fresh_thread 0)).
  - vm_compute. reflexivity.
  - reflexivity.
Defined.

(** X4. An exception that is not a [RequestException] is not retried and not
    turned into a result: raised by an attempt within the budget, the earlier
    ones having failed, it leaves [send_request] at once, with no sleep and
    no attempt after it. *)
Theorem other_exceptions_propagate cfg ce n timeout t k e :
  (k < Z.to_nat (MAX_RETRIES cfg))%nat ->
  (forall j, (j < k)%nat ->
     exists e', fails_with (sum_url cfg)
                  (attempt_of ce (sum_url cfg) n timeout (attempts t + j)) e') ->
  outcome (attempt_of ce (sum_url cfg) n timeout (attempts t + k)) = GetRaised e ->
  isinstance_RequestException e = false ->
  exists t',
    send_request cfg ce n timeout t = (Raise e, t') /\
    attempts t' = (attempts t + k + 1)%nat /\
    sleeps t' = (sleeps t + k)%nat.
Proof.
  intros Hk Hbefore Hout He.
  assert (Hv : attempt_value (sum_url cfg)
                 (attempt_of ce (sum_url cfg) n timeout (attempts t + k)) = Raise e).
  { unfold attempt_value. now rewrite Hout. }
  rewrite (send_request_propagates cfg ce n timeout k e t Hk Hbefore Hv He).
  eexists. split; [reflexivity|].
  rewrite attempts_after_get, sleeps_after_get.
  rewrite attempts_after_retries, sleeps_after_retries. lia.
Qed.

Lemma other_exceptions_propagate_witness :
  exists t',
    send_request CONFIG breaks_on_second 7 0 (fresh_thread 0) = (Raise bad_timeout, t') /\
    attempts t' = (attempts (fresh_thread 0) + 1 + 1)%nat /\
    sleeps t' = (sleeps (fresh_thread 0) + 1)%nat.
Proof.
  apply (other_exceptions_propagate CONFIG breaks_on_second 7 0 (fresh_thread 0) 1
           bad_timeout).
  - cbn. lia.
  - intros j Hj. assert (j = 0)%nat as -> by lia. exists refused. split; reflexivity.
  - reflexivity.
  - reflexivity.
Defined.

(** X5. Only a 4xx or 5xx status makes an attempt fail: a response with any
    other status (the 700 of the service included) and a body that decodes is
    taken as a success at once, its body as the payload, with no retry. *)
Theorem other_status_is_success cfg ce n timeout t resp d :
  1 <= MAX_RETRIES cfg ->
  outcome (attempt_of ce (sum_url cfg) n timeout (attempts t)) = GotResponse resp ->
  status_code resp < 400 \/ 600 <= status_code resp ->
  body resp = Some d ->
  exists r t',
    send_request cfg ce n timeout t = (Ok (Some r), t') /\
    success r = true /\
    response_data r = d /\
    error r = None /\
    attempts t' = S (attempts t) /\
    sleeps t' = sleeps t.
Proof.
  intros Hmax Hout Hstatus Hbody.
  assert (Hv : attempt_value (sum_url cfg)
                 (attempt_of ce (sum_url cfg) n timeout (attempts t + 0)) = Ok d).
  { rewrite Nat.add_0_r. unfold attempt_value. rewrite Hout.
    unfold bind, raise_for_status, response_json.
    replace ((400 <=? status_code resp) && (status_code resp <? 500)) with false
      by (symmetry; apply andb_false_iff; rewrite Z.leb_gt, Z.ltb_ge; lia).
    replace ((500 <=? status_code resp) && (status_code resp <? 600)) with false
      by (symmetry; apply andb_false_iff; rewrite Z.leb_gt, Z.ltb_ge; lia).
    cbn. now rewrite Hbody. }
  rewrite (send_request_succeeds cfg ce n timeout 0 d t); [|lia|intros j Hj; lia|exact Hv].
  cbv zeta. eexists; eexists. split; [reflexivity|].
  cbn [success_result success response_data error after_retries].
  rewrite attempts_after_get, sleeps_after_get. repeat split; reflexivity.
Qed.

Lemma other_status_is_success_witness :
  exists r t',
    send_request CONFIG always_700 7 30 (fresh_thread 0) = (Ok (Some r), t') /\
    success r = true /\
    response_data r = JObj [("error"%string, JStr "Invalid input")] /\
    error r = None /\
    attempts t' = S (attempts (fresh_thread 0)) /\
    sleeps t' = sleeps (fresh_thread 0).
Proof.
  apply (other_status_is_success CONFIG always_700 7 30 (fresh_thread 0)
           invalid_input_response).
  - cbn. lia.
  - reflexivity.
  - right. cbn. lia.
  - reflexivity.
Defined.

(** X6. The [execution_time] of any result is the time of the clock from the
    entry into [send_request] to its return, and, when the clock does not run
    backwards, it is at least one second for each sleep of the call. *)
Theorem execution_time_covers_sleeps cfg ce n timeout t r t' :
  send_request cfg ce n timeout t = (Ok (Some r), t') ->
  clock_advances ce ->
  execution_time r = (clock t' - clock t)%Q /\
  (inject_Z (Z.of_nat (sleeps t' - sleeps t)) <= execution_time r)%Q.
Proof.
  intros Hrun Hclock.
  pose proof (send_request_Some_budget _ _ _ _ _ _ _ Hrun) as Hmax.
  destruct (send_request_outcome cfg ce n timeout t Hmax) as (k & Hk & Hbefore & Hend).
  cbv zeta in Hend.
  destruct Hend as [(d & Hd & Heq)|[(e & He & Hlast & Heq)|(e & _ & _ & Heq)]];
    rewrite Heq in Hrun; inversion Hrun; subst r t'; clear Hrun;
    cbn [success_result failure_result execution_time];
    (split; [reflexivity|]);
    rewrite sleeps_after_get, sleeps_after_retries;
    replace (sleeps t + k - sleeps t)%nat with k by lia;
    now apply elapsed_lower_bound.
Qed.

Lemma execution_time_covers_sleeps_witness :
  exists r t',
    send_request CONFIG (flaky 2) 7 30 (fresh_thread 3) = (Ok (Some r), t') /\
    execution_time r = (clock t' - clock (fresh_thread 3))%Q /\
    (inject_Z (Z.of_nat (sleeps t' - sleeps (fresh_thread 3))) <= execution_time r)%Q.
Proof.
  eexists; eexists. split; [vm_compute; reflexivity|].
  eapply (execution_time_covers_sleeps CONFIG (flaky 2) 7 30 (fresh_thread 3)).
  - vm_compute. reflexivity.
  - apply flaky_clock_advances.
Defined.

(** ** The batch: more on what a summary says *)

(** The elapsed time of a result is read on the clock of its thread. *)
Lemma send_request_execution_time cfg ce n timeout t r t' :
  send_request cfg ce n timeout t = (Ok (Some r), t') ->
  execution_time r = (clock t' - clock t)%Q.
Proof.
  intros Hrun.
  pose proof (send_request_Some_budget _ _ _ _ _ _ _ Hrun) as Hmax.
  destruct (send_request_outcome cfg ce n timeout t Hmax) as (k & _ & _ & Hend).
  cbv zeta in Hend.
  destruct Hend as [(d & _ & Heq)|[(e & _ & _ & Heq)|(e & _ & _ & Heq)]];
    rewrite Heq in Hrun; inversion Hrun; reflexivity.
Qed.

(** The number of attempts of a call, by its budget. *)
Lemma send_request_attempts_bound cfg ce n timeout t :
  1 <= MAX_RETRIES cfg ->
  (attempts t + 1 <= attempts (snd (send_request cfg ce n timeout t))
   <= attempts t + Z.to_nat (MAX_RETRIES cfg))%nat.
Proof.
  intros Hmax.
  destruct (send_request_outcome cfg ce n timeout t Hmax) as (k & Hk & _ & Hend).
  cbv zeta in Hend.
  destruct Hend as [(d & _ & Heq)|[(e & _ & _ & Heq)|(e & _ & _ & Heq)]];
    rewrite Heq; cbn [snd]; rewrite attempts_after_get, attempts_after_retries; lia.
Qed.

(** Without a budget a call does nothing. *)
Lemma future_of_no_budget cfg be n t0 i :
  MAX_RETRIES cfg <= 0 ->
  future_of cfg be n t0 i = {| outcome_of := Ok None; finished_at := t0; gets := 0 |}.
Proof.
  intros H. unfold future_of, send_request, range, bind, time_time.
  replace (Z.to_nat (MAX_RETRIES cfg)) with 0%nat by lia. reflexivity.
Qed.

Lemma gets_bound cfg be n t0 i :
  1 <= MAX_RETRIES cfg ->
  (1 <= gets (future_of cfg be n t0 i) <= Z.to_nat (MAX_RETRIES cfg))%nat.
Proof.
  intros Hmax. cbn [future_of gets].
  pose proof (send_request_attempts_bound cfg (call_env be i) n (TIMEOUT cfg)
                (fresh_thread t0) Hmax) as H.
  cbn [fresh_thread attempts] in H. lia.
Qed.

Lemma list_sum_bounds {A} (f : A -> nat) (lo hi : nat) (l : list A) :
  (forall x, In x l -> (lo <= f x <= hi)%nat) ->
  (lo * List.length l <= list_sum (map f l) <= hi * List.length l)%nat.
Proof.
  induction l as [|x l IH]; intros H; simpl; [lia|].
  specialize (IH (fun y Hy => H y (or_intror Hy))).
  specialize (H x (or_introl eq_refl)). rewrite !Nat.mul_succ_r. lia.
Qed.

(** The clock after a batch is not before its start, nor before the end of
    any of its calls. *)
Lemma fold_max_init (fs : list Future) (t0 : Q) :
  (t0 <= fold_right (fun f t => Qmax (finished_at f) t) t0 fs)%Q.
Proof.
  induction fs as [|f fs IH]; cbn [fold_right]; [apply Qle_refl|].
  eapply Qle_trans; [exact IH|]. apply Q.le_max_r.
Qed.

Lemma fold_max_In (fs : list Future) (t0 : Q) f :
  In f fs ->
  (finished_at f <= fold_right (fun f t => Qmax (finished_at f) t) t0 fs)%Q.
Proof.
  induction fs as [|g fs IH]; intros Hin; cbn [fold_right]; [contradiction|].
  destruct Hin as [->|Hin].
  - apply Q.le_max_l.
  - eapply Qle_trans; [apply IH, Hin|]. apply Q.le_max_r.
Qed.

(** The world a batch of positive size leaves, however it ends. *)
Lemma run_workload_world cfg env num n w res w' :
  1 <= num ->
  run_workload cfg env num n w = (res, w') ->
  w' = after_batch w
         (map (future_of cfg (env (pools w)) n (now w)) (seq 0 (Z.to_nat num))).
Proof.
  intros Hnum. rewrite run_workload_eq.
  replace (num <=? 0) with false by (symmetry; apply Z.leb_gt; lia). cbv zeta.
  destruct (fst (for_each future_result _ w)) as [results|e].
  - destruct (fst (successful results w)) as [succ|e]; intros H; now inversion H.
  - intros H. now inversion H.
Qed.

Lemma Qsum_perm (l l' : list Q) : Permutation l l' -> (Qsum l == Qsum l')%Q.
Proof.
  unfold Qsum.
  induction 1 as [|x l l' _ IH|x y l|l l' l'' _ IH1 _ IH2]; cbn [fold_right].
  - reflexivity.
  - now rewrite IH.
  - ring.
  - now rewrite IH1.
Qed.

Lemma Qsum_bounds (lo hi : Q) (l : list Q) :
  (forall x, In x l -> (lo <= x <= hi)%Q) ->
  (lo * inject_Z (Z.of_nat (List.length l)) <= Qsum l
   <= hi * inject_Z (Z.of_nat (List.length l)))%Q.
Proof.
  unfold Qsum. induction l as [|x l IH]; intros H; cbn [fold_right List.length].
  - change (inject_Z (Z.of_nat 0)) with 0%Q. lra.
  - specialize (IH (fun y Hy => H y (or_intror Hy))).
    specialize (H x (or_introl eq_refl)).
    rewrite Nat2Z.inj_succ. unfold Z.succ. rewrite inject_Z_plus.
    change (inject_Z 1) with 1%Q.
    set (L := inject_Z (Z.of_nat (List.length l))) in *.
    setoid_replace (lo * (L + 1))%Q with (lo * L + lo)%Q by ring.
    setoid_replace (hi * (L + 1))%Q with (hi * L + hi)%Q by ring.
    set (loL := (lo * L)%Q) in *. set (hiL := (hi * L)%Q) in *. lra.
Qed.

Lemma length_pos_Q {A} (x : A) (l : list A) :
  (0 < inject_Z (Z.of_nat (List.length (x :: l))))%Q.
Proof.
  change 0%Q with (inject_Z 0). rewrite <- Zlt_Qlt. cbn [List.length]. lia.
Qed.

Lemma call_outcome_ext cfg be1 be2 n t0 i :
  call_env be1 i = call_env be2 i ->
  future_of cfg be1 n t0 i = future_of cfg be2 n t0 i.
Proof. intros H. unfold future_of. now rewrite H. Qed.

(** A result of a call ends when its future says. *)
Lemma call_outcome_elapsed cfg be n t0 i o :
  call_outcome cfg be n t0 i = Ok (Some o) ->
  execution_time o = (finished_at (future_of cfg be n t0 i) - t0)%Q.
Proof.
  unfold call_outcome, future_of. cbn [finished_at].
  destruct (send_request cfg (call_env be i) n (TIMEOUT cfg) (fresh_thread t0))
    as [res t'] eqn:E. cbn [fst snd]. intros ->.
  now rewrite (send_request_execution_time _ _ _ _ _ _ _ E).
Qed.

(** The results a summary is built from, one by one. *)
Lemma outs_are_call_outcomes cfg be n t0 N outs o :
  Permutation (map (fun o => Ok (Some o)) outs)
    (map (call_outcome cfg be n t0) (seq 0 N)) ->
  In o outs ->
  exists i, (i < N)%nat /\ call_outcome cfg be n t0 i = Ok (Some o).
Proof.
  intros Hperm Ho.
  assert (Hin : In (Ok (Some o)) (map (call_outcome cfg be n t0) (seq 0 N))).
  { eapply Permutation_in; [exact Hperm|]. now apply (in_map (fun o => Ok (Some o))). }
  apply in_map_iff in Hin. destruct Hin as (i & Hi & Hseq).
  apply in_seq in Hseq. exists i. split; [lia|exact Hi].
Qed.

Lemma call_outcomes_are_outs cfg be n t0 N outs i :
  Permutation (map (fun o => Ok (Some o)) outs)
    (map (call_outcome cfg be n t0) (seq 0 N)) ->
  (i < N)%nat ->
  exists o, In o outs /\ call_outcome cfg be n t0 i = Ok (Some o).
Proof.
  intros Hperm Hi.
  assert (Hin : In (call_outcome cfg be n t0 i) (map (fun o => Ok (Some o)) outs)).
  { eapply Permutation_in; [apply Permutation_sym, Hperm|].
    apply in_map, in_seq. lia. }
  apply in_map_iff in Hin. destruct Hin as (o & Ho & Hin). now exists o.
Qed.

Lemma filter_all {A} (f : A -> bool) (l : list A) :
  (forall x, In x l -> f x = true) -> filter f l = l.
Proof.
  induction l as [|x l IH]; intros H; cbn [filter]; [reflexivity|].
  rewrite (H x (or_introl eq_refl)). f_equal. apply IH. intros y Hy. apply H. now right.
Qed.

(** ** Extras on a batch *)

(** X7. The [throughput] of a summary counts every request of the batch, failed
    ones included: times the [total_time] it gives [num_requests] when the
    batch took a positive time, and it is 0 when the clock did not move. *)
Theorem throughput_counts_every_request cfg env num n w r w' :
  run_workload cfg env num n w = (Ok r, w') ->
  request_count r = num /\
  ((0 < total_time r)%Q -> (throughput r * total_time r == inject_Z num)%Q) /\
  ((total_time r <= 0)%Q -> throughput r = 0%Q).
Proof.
  intros Hrun. apply run_workload_Ok_inv in Hrun.
  destruct Hrun as (_ & outs & _ & -> & _).
  cbn [summary_of request_count throughput total_time].
  set (total := (now w' - now w)%Q).
  split; [reflexivity|]. split; intros Htot.
  - assert (Hc : (total ?= 0)%Q = Gt) by now apply Qgt_alt.
    rewrite Hc. field. intros Hz. rewrite Hz in Htot. discriminate.
  - destruct (Qcompare_spec total 0) as [Heq|Hlt|Hgt]; try reflexivity.
    exfalso. eapply Qlt_irrefl, Qlt_le_trans; eauto.
Qed.

Lemma throughput_counts_every_request_witness :
  exists r w',
    run_workload CONFIG mixed 6 100000 world0 = (Ok r, w') /\
    request_count r = 6 /\
    ((0 < total_time r)%Q -> (throughput r * total_time r == inject_Z 6)%Q) /\
    ((total_time r <= 0)%Q -> throughput r = 0%Q).
Proof.
  eexists; eexists. split; [vm_compute; reflexivity|].
  eapply (throughput_counts_every_request CONFIG mixed 6 100000 world0).
  vm_compute. reflexivity.
Defined.

(** X8. When some call succeeded, [avg_calculation_time] is the arithmetic
    mean of the latencies: times their number it gives their sum, and it lies
    between any two bounds of the latencies. *)
Theorem average_is_mean_of_latencies cfg env num n w r w' :
  run_workload cfg env num n w = (Ok r, w') ->
  latencies r <> [] ->
  exists avg,
    avg_calculation_time r = Some avg /\
    (avg * inject_Z (Z.of_nat (List.length (latencies r))) == Qsum (latencies r))%Q /\
    forall lo hi,
      (forall x, In x (latencies r) -> (lo <= x <= hi)%Q) -> (lo <= avg <= hi)%Q.
Proof.
  intros Hrun Hne. apply run_workload_Ok_inv in Hrun.
  destruct Hrun as (_ & outs & _ & -> & _).
  cbn [summary_of avg_calculation_time latencies] in *.
  destruct (map execution_time (filter success outs)) as [|x l] eqn:E; [contradiction|].
  eexists. split; [reflexivity|].
  pose proof (length_pos_Q x l) as Hpos.
  set (L := inject_Z (Z.of_nat (List.length (x :: l)))) in *.
  split.
  - field. intros Hz. rewrite Hz in Hpos. discriminate.
  - intros lo hi Hb. pose proof (Qsum_bounds lo hi (x :: l) Hb) as [Hlo Hhi].
    fold L in Hlo, Hhi. split.
    + now apply Qle_shift_div_l.
    + now apply Qle_shift_div_r.
Qed.

Lemma average_is_mean_of_latencies_witness :
  exists r w',
    run_workload CONFIG mixed 6 100000 world0 = (Ok r, w') /\
    exists avg,
      avg_calculation_time r = Some avg /\
      (avg * inject_Z (Z.of_nat (List.length (latencies r))) == Qsum (latencies r))%Q /\
      forall lo hi,
        (forall x, In x (latencies r) -> (lo <= x <= hi)%Q) -> (lo <= avg <= hi)%Q.
Proof.
  eexists; eexists. split; [vm_compute; reflexivity|].
  eapply (average_is_mean_of_latencies CONFIG mixed 6 100000 world0).
  - vm_compute. reflexivity.
  - discriminate.
Defined.

(** X9. The [total_time] of a summary is not negative and no latency of the
    summary exceeds it: the batch ends when its last call has ended. *)
Theorem total_time_bounds_latencies cfg env num n w r w' :
  run_workload cfg env num n w = (Ok r, w') ->
  (0 <= total_time r)%Q /\
  forall x, In x (latencies r) -> (x <= total_time r)%Q.
Proof.
  intros Hrun. apply run_workload_Ok_inv in Hrun.
  destruct Hrun as (_ & outs & Hperm & -> & ->).
  cbn [summary_of total_time latencies after_batch now].
  set (futures := map (future_of cfg (env (pools w)) n (now w)) (seq 0 (Z.to_nat num))).
  split.
  - pose proof (fold_max_init futures (now w)). lra.
  - intros x Hx. apply in_map_iff in Hx. destruct Hx as (o & <- & Ho).
    apply filter_In in Ho. destruct Ho as [Ho _].
    destruct (outs_are_call_outcomes _ _ _ _ _ _ _ Hperm Ho) as (i & Hi & Hcall).
    rewrite (call_outcome_elapsed _ _ _ _ _ _ Hcall).
    assert (Hin : In (future_of cfg (env (pools w)) n (now w) i) futures).
    { unfold futures. apply in_map, in_seq. lia. }
    pose proof (fold_max_In futures (now w) _ Hin). lra.
Qed.

Lemma total_time_bounds_latencies_witness :
  exists r w',
    run_workload CONFIG mixed 6 100000 world0 = (Ok r, w') /\
    (0 <= total_time r)%Q /\
    forall x, In x (latencies r) -> (x <= total_time r)%Q.
Proof.
  eexists; eexists. split; [vm_compute; reflexivity|].
  eapply (total_time_bounds_latencies CONFIG mixed 6 100000 world0).
  vm_compute. reflexivity.
Defined.

(** X10. A batch of [num_requests >= 1] calls with a budget sends at least
    [num_requests] and at most [num_requests * MAX_RETRIES] HTTP requests,
    however it ends. *)
Theorem batch_request_count cfg env num n w res w' :
  1 <= num ->
  1 <= MAX_RETRIES cfg ->
  run_workload cfg env num n w = (res, w') ->
  num <= Z.of_nat (requests w') - Z.of_nat (requests w) <= num * MAX_RETRIES cfg.
Proof.
  intros Hnum Hmax Hrun.
  rewrite (run_workload_world _ _ _ _ _ _ _ Hnum Hrun). cbn [after_batch requests].
  set (futures := map (future_of cfg (env (pools w)) n (now w)) (seq 0 (Z.to_nat num))).
  assert (Hb : forall f, In f futures ->
                 (1 <= gets f <= Z.to_nat (MAX_RETRIES cfg))%nat).
  { intros f Hf. apply in_map_iff in Hf. destruct Hf as (i & <- & _).
    now apply gets_bound. }
  pose proof (list_sum_bounds gets 1 (Z.to_nat (MAX_RETRIES cfg)) futures Hb) as Hsum.
  assert (Hlen : List.length futures = Z.to_nat num)
    by (unfold futures; now rewrite length_map, length_seq).
  rewrite Hlen in Hsum. nia.
Qed.

Lemma batch_request_count_witness :
  6 <= Z.of_nat (requests (snd (run_workload CONFIG mixed 6 100000 world0)))
       - Z.of_nat (requests world0) <= 6 * MAX_RETRIES CONFIG.
Proof.
  apply (batch_request_count CONFIG mixed 6 100000 world0
           (fst (run_workload CONFIG mixed 6 100000 world0))).
  - lia.
  - cbn. lia.
  - apply surjective_pairing.
Defined.

Lemma for_each_future_result_raise fs e (w : World) :
  fst (for_each future_result fs w) = Raise e ->
  exists f, In f fs /\ outcome_of f = Raise e.
Proof.
  induction fs as [|f fs IH]; cbn [for_each]; [discriminate|].
  unfold bind. change (future_result f w) with (outcome_of f, w).
  destruct (outcome_of f) as [v|e'] eqn:Ef.
  - destruct (for_each future_result fs w) as [[vs|e'] w1] eqn:E; cbn [fst];
      [discriminate|].
    intros H. inversion H; subst. destruct (IH eq_refl) as (g & Hg & Hout).
    exists g. split; [now right|exact Hout].
  - cbn [fst]. intros H. inversion H; subst. exists f. split; [now left|exact Ef].
Qed.

Lemma successful_raise {S} results e (s : S) :
  fst (successful results s) = Raise e ->
  In None results /\ exc_class e = AttributeError.
Proof.
  induction results as [|[o|] results IH]; cbn [successful].
  - discriminate.
  - destruct (success o).
    + unfold bind. destruct (successful results s) as [[tl|e'] s1] eqn:E; cbn [fst];
        [discriminate|].
      intros H. inversion H; subst. destruct (IH eq_refl). split; [now right|assumption].
    + intros H. destruct (IH H). split; [now right|assumption].
  - cbn. intros H. inversion H; subst. split; [now left|reflexivity].
Qed.

Lemma Permutation_Ok_Some (l l' : list RequestResult) :
  Permutation (map (fun o => Ok (Some o)) l) (map (fun o => Ok (Some o)) l') ->
  Permutation l l'.
Proof.
  intros H. apply Permutation_sym, Permutation_map_inv in H.
  destruct H as (l3 & Heq & Hperm).
  assert (l' = l3) as ->; [|now apply Permutation_sym].
  clear Hperm. revert l3 Heq.
  induction l' as [|x l' IH]; intros [|y l3] Heq; try discriminate; [reflexivity|].
  cbn [map] in Heq. inversion Heq; subst. f_equal. now apply IH.
Qed.

(** X11. The order in which the calls of a batch complete does not matter to
    the summary: with the same calls handed back in another order,
    [run_workload] returns a summary with the same [request_count],
    [total_time], [throughput] and [success_rate], the same latencies up to
    their order, and the same average. *)
Theorem summary_independent_of_completion_order cfg env1 env2 num n w r1 w1 :
  (forall i, call_env (env1 (pools w)) i = call_env (env2 (pools w)) i) ->
  run_workload cfg env1 num n w = (Ok r1, w1) ->
  exists r2,
    run_workload cfg env2 num n w = (Ok r2, w1) /\
    request_count r2 = request_count r1 /\
    total_time r2 = total_time r1 /\
    throughput r2 = throughput r1 /\
    success_rate r2 = success_rate r1 /\
    Permutation (latencies r2) (latencies r1) /\
    exists a1 a2,
      avg_calculation_time r1 = Some a1 /\
      avg_calculation_time r2 = Some a2 /\
      (a1 == a2)%Q.
Proof.
  intros Hsame Hrun1.
  assert (Hfut : forall l,
             map (future_of cfg (env1 (pools w)) n (now w)) l
             = map (future_of cfg (env2 (pools w)) n (now w)) l).
  { intros l. apply map_ext. intros i. now apply call_outcome_ext. }
  assert (Hout : forall l,
             map (call_outcome cfg (env1 (pools w)) n (now w)) l
             = map (call_outcome cfg (env2 (pools w)) n (now w)) l).
  { intros l. apply map_ext. intros i. unfold call_outcome. now rewrite Hsame. }
  apply run_workload_Ok_inv in Hrun1.
  destruct Hrun1 as (Hnum & outs1 & Hperm1 & -> & Hw1).
  destruct (run_workload_returns cfg env2 num n w Hnum) as (r2 & w2 & Hrun2).
  { intros i Hi. rewrite Hout in Hperm1.
    destruct (call_outcomes_are_outs _ _ _ _ _ _ i Hperm1 Hi) as (o & _ & Ho).
    now exists o. }
  exists r2. pose proof Hrun2 as Hinv. apply run_workload_Ok_inv in Hinv.
  destruct Hinv as (_ & outs2 & Hperm2 & -> & Hw2).
  assert (w2 = w1) as -> by (rewrite Hw1, Hw2, Hfut; reflexivity).
  split; [exact Hrun2|].
  assert (Hperm : Permutation (filter success outs2) (filter success outs1)).
  { apply filter_perm, Permutation_Ok_Some.
    eapply perm_trans; [exact Hperm2|]. rewrite <- Hout. now apply Permutation_sym. }
  pose proof (Permutation_length Hperm) as Hlen.
  pose proof (Permutation_map execution_time Hperm) as Hlat.
  cbn [summary_of request_count total_time throughput success_rate latencies
       avg_calculation_time].
  repeat (split; [reflexivity|]). split; [now rewrite Hlen|]. split; [exact Hlat|].
  eexists; eexists. split; [reflexivity|]. split; [reflexivity|].
  destruct (map execution_time (filter success outs1)) as [|x1 l1] eqn:E1.
  - apply Permutation_sym, Permutation_nil in Hlat. rewrite Hlat. reflexivity.
  - destruct (map execution_time (filter success outs2)) as [|x2 l2] eqn:E2.
    + apply Permutation_nil in Hlat. discriminate.
    + rewrite (Qsum_perm _ _ Hlat), (Permutation_length Hlat). reflexivity.
Qed.

Lemma summary_independent_of_completion_order_witness :
  exists r1 w1 r2,
    run_workload CONFIG mixed 6 100000 world0 = (Ok r1, w1) /\
    run_workload CONFIG mixed_reordered 6 100000 world0 = (Ok r2, w1) /\
    request_count r2 = request_count r1 /\
    total_time r2 = total_time r1 /\
    throughput r2 = throughput r1 /\
    success_rate r2 = success_rate r1 /\
    Permutation (latencies r2) (latencies r1) /\
    exists a1 a2,
      avg_calculation_time r1 = Some a1 /\
      avg_calculation_time r2 = Some a2 /\
      (a1 == a2)%Q.
Proof.
  assert (H1 : exists r1 w1, run_workload CONFIG mixed 6 100000 world0 = (Ok r1, w1))
    by (eexists; eexists; vm_compute; reflexivity).
  destruct H1 as (r1 & w1 & H1).
  destruct (summary_independent_of_completion_order CONFIG mixed mixed_reordered
              6 100000 world0 r1 w1 (fun i => eq_refl) H1) as (r2 & H2 & Hrest).
  exists r1, w1, r2. split; [exact H1|]. split; [exact H2|]. exact Hrest.
Defined.

Lemma futures_no_budget cfg be n t0 N : forall s,
  MAX_RETRIES cfg <= 0 ->
  map (future_of cfg be n t0) (seq s N)
  = repeat {| outcome_of := Ok None; finished_at := t0; gets := 0 |} N.
Proof.
  induction N as [|N IH]; intros s Hmax; cbn [seq map repeat]; [reflexivity|].
  rewrite (future_of_no_budget _ _ _ _ _ Hmax), (IH _ Hmax). reflexivity.
Qed.

Lemma idle_futures_requests t0 k :
  list_sum (map gets (repeat {| outcome_of := Ok None; finished_at := t0; gets := 0 |} k))
  = 0%nat.
Proof. induction k as [|k IH]; simpl; [reflexivity|exact IH]. Qed.

Lemma idle_futures_clock t0 k :
  (fold_right (fun f t => Qmax (finished_at f) t) t0
     (repeat {| outcome_of := Ok None; finished_at := t0; gets := 0 |} k) == t0)%Q.
Proof.
  induction k as [|k IH]; cbn [repeat fold_right finished_at]; [reflexivity|].
  rewrite IH. apply Q.max_id.
Qed.

(** Without a retry budget every call of a batch returns [None], and the
    reduction raises on the first of them. *)
Lemma run_workload_no_budget cfg env num n w :
  1 <= num ->
  MAX_RETRIES cfg <= 0 ->
  exists e w',
    run_workload cfg env num n w = (Raise e, w') /\
    exc_class e = AttributeError /\
    requests w' = requests w /\
    pools w' = S (pools w) /\
    now w' == now w.
Proof.
  intros Hnum Hmax. rewrite run_workload_eq.
  replace (num <=? 0) with false by (symmetry; apply Z.leb_gt; lia). cbv zeta.
  set (be := env (pools w)).
  set (futures := map (future_of cfg be n (now w)) (seq 0 (Z.to_nat num))).
  assert (Hfut : futures
                 = repeat {| outcome_of := Ok None; finished_at := now w; gets := 0 |}
                     (Z.to_nat num)).
  { unfold futures. apply futures_no_budget, Hmax. }
  assert (Hall : forall f, In f (as_completed (picks be) futures) ->
                           outcome_of f = Ok None).
  { intros f Hf. eapply Permutation_in in Hf; [|apply as_completed_perm].
    rewrite Hfut in Hf. apply repeat_spec in Hf. now subst f. }
  assert (Hlen : List.length (as_completed (picks be) futures) = Z.to_nat num).
  { rewrite (Permutation_length (as_completed_perm _ _)).
    unfold futures. now rewrite length_map, length_seq. }
  assert (Hres : map outcome_of (as_completed (picks be) futures)
                 = map Ok (repeat None (Z.to_nat num))).
  { rewrite <- Hlen. clear Hlen.
    induction (as_completed (picks be) futures) as [|f fs IH];
      cbn [map repeat List.length]; [reflexivity|].
    rewrite (Hall f (or_introl eq_refl)), IH; [reflexivity|].
    intros g Hg. apply Hall. now right. }
  rewrite (for_each_future_result_Ok _ _ w Hres). cbn [fst].
  destruct (Z.to_nat num) as [|N] eqn:EN; [lia|]. cbn [repeat successful raise fst].
  eexists; eexists. split; [reflexivity|]. split; [reflexivity|].
  cbn [after_batch requests now pools]. rewrite Hfut. split; [|split].
  - rewrite idle_futures_requests. lia.
  - reflexivity.
  - apply idle_futures_clock.
Qed.

(** X12. Without a retry budget a batch of positive size cannot be summed up:
    every call returns [None], so [run_workload] raises [AttributeError] when
    it reads [.success], and no request was sent. *)
Theorem batch_without_budget_raises cfg env num n w :
  1 <= num ->
  MAX_RETRIES cfg <= 0 ->
  exists e w',
    run_workload cfg env num n w = (Raise e, w') /\
    exc_class e = AttributeError /\
    requests w' = requests w /\
    now w' == now w.
Proof.
  intros Hnum Hmax.
  destruct (run_workload_no_budget cfg env num n w Hnum Hmax)
    as (e & w' & Hrun & Hcls & Hreq & _ & Hnow).
  now exists e, w'.
Qed.

Lemma batch_without_budget_raises_witness :
  exists e w',
    run_workload (mkConfig "http://10.0.0.1:5000" 100000 [1; 10] 30 0) mixed 4 100000 world0
    = (Raise e, w') /\
    exc_class e = AttributeError /\
    requests w' = requests world0 /\
    now w' == now world0.
Proof.
  apply (batch_without_budget_raises
           (mkConfig "http://10.0.0.1:5000" 100000 [1; 10] 30 0) mixed 4 100000 world0).
  - lia.
  - cbn. lia.
Defined.

(** The ways a batch can raise. *)
Lemma run_workload_Raise_inv cfg env num n w e w' :
  run_workload cfg env num n w = (Raise e, w') ->
  (num <= 0 /\ exc_class e = ValueError /\ w' = w) \/
  (1 <= num /\
   w' = after_batch w
          (map (future_of cfg (env (pools w)) n (now w)) (seq 0 (Z.to_nat num))) /\
   ((exists i, (i < Z.to_nat num)%nat /\
               call_outcome cfg (env (pools w)) n (now w) i = Raise e) \/
    (exc_class e = AttributeError /\
     exists i, (i < Z.to_nat num)%nat /\
               call_outcome cfg (env (pools w)) n (now w) i = Ok None))).
Proof.
  rewrite run_workload_eq. destruct (num <=? 0) eqn:Enum.
  - intros H. inversion H; subst. left. apply Z.leb_le in Enum. auto.
  - apply Z.leb_gt in Enum. cbv zeta.
    set (be := env (pools w)).
    set (futures := map (future_of cfg be n (now w)) (seq 0 (Z.to_nat num))).
    assert (Hidx : forall f, In f (as_completed (picks be) futures) ->
                     exists i, (i < Z.to_nat num)%nat /\
                               outcome_of f = call_outcome cfg be n (now w) i).
    { intros f Hf. eapply Permutation_in in Hf; [|apply as_completed_perm].
      apply in_map_iff in Hf. destruct Hf as (i & <- & Hi). apply in_seq in Hi.
      exists i. split; [lia|reflexivity]. }
    destruct (for_each future_result (as_completed (picks be) futures) w)
      as [[results|e'] w1] eqn:Er; cbn [fst].
    + destruct (fst (successful results w)) as [succ|e'] eqn:Es; [discriminate|].
      intros H. inversion H; subst. right. split; [lia|]. split; [reflexivity|].
      right. apply successful_raise in Es. destruct Es as [Hnone Hcls].
      split; [exact Hcls|].
      apply for_each_future_result_inv in Er.
      assert (Hin : In (Ok None) (map outcome_of (as_completed (picks be) futures))).
      { rewrite Er. now apply in_map. }
      apply in_map_iff in Hin. destruct Hin as (f & Hf & Hfin).
      destruct (Hidx f Hfin) as (i & Hi & Hout). exists i. split; [exact Hi|congruence].
    + intros H. inversion H; subst. right. split; [lia|]. split; [reflexivity|].
      left.
      assert (Hr : fst (for_each future_result (as_completed (picks be) futures) w)
                   = Raise e) by now rewrite Er.
      apply for_each_future_result_raise in Hr. destruct Hr as (f & Hfin & Hf).
      destruct (Hidx f Hfin) as (i & Hi & Hout). exists i. split; [exact Hi|congruence].
Qed.

(** X13. [run_workload] raises in three cases only: the size of the pool is
    not positive ([ValueError], nothing was done); a call raised, and its
    exception is raised again; a call returned [None] ([AttributeError]).  In
    the last two cases the pool has waited for every call of the batch
    before the exception leaves. *)
Theorem run_workload_raises_only cfg env num n w e w' :
  run_workload cfg env num n w = (Raise e, w') ->
  (num <= 0 /\ exc_class e = ValueError /\ w' = w) \/
  (1 <= num /\
   w' = after_batch w
          (map (future_of cfg (env (pools w)) n (now w)) (seq 0 (Z.to_nat num))) /\
   ((exists i, (i < Z.to_nat num)%nat /\
               call_outcome cfg (env (pools w)) n (now w) i = Raise e) \/
    (exc_class e = AttributeError /\
     exists i, (i < Z.to_nat num)%nat /\
               call_outcome cfg (env (pools w)) n (now w) i = Ok None))).
Proof. apply run_workload_Raise_inv. Qed.

Lemma run_workload_raises_only_witness :
  exists e w',
    run_workload CONFIG one_breaks 3 100000 world0 = (Raise e, w') /\
    ((3 <= 0 /\ exc_class e = ValueError /\ w' = world0) \/
     (1 <= 3 /\
      w' = after_batch world0
             (map (future_of CONFIG (one_breaks (pools world0)) 100000 (now world0))
                (seq 0 (Z.to_nat 3))) /\
      ((exists i, (i < Z.to_nat 3)%nat /\
                  call_outcome CONFIG (one_breaks (pools world0)) 100000 (now world0) i
                  = Raise e) \/
       (exc_class e = AttributeError /\
        exists i, (i < Z.to_nat 3)%nat /\
                  call_outcome CONFIG (one_breaks (pools world0)) 100000 (now world0) i
                  = Ok None)))).
Proof.
  assert (H : exists e w',
             run_workload CONFIG one_breaks 3 100000 world0 = (Raise e, w'))
    by (eexists; eexists; vm_compute; reflexivity).
  destruct H as (e & w' & H). exists e, w'. split; [exact H|].
  exact (run_workload_raises_only CONFIG one_breaks 3 100000 world0 e w' H).
Defined.

(** X14. When every call of a batch succeeds, the summary has a
    [success_rate] of 1 and one latency for each call. *)
Theorem all_success_summary cfg env num n w :
  1 <= num ->
  (forall i, (i < Z.to_nat num)%nat ->
     exists o, call_outcome cfg (env (pools w)) n (now w) i = Ok (Some o) /\
               success o = true) ->
  exists r w',
    run_workload cfg env num n w = (Ok r, w') /\
    (success_rate r == 1)%Q /\
    Z.of_nat (List.length (latencies r)) = num.
Proof.
  intros Hnum Hok.
  destruct (run_workload_returns cfg env num n w Hnum) as (r & w' & Hrun).
  { intros i Hi. destruct (Hok i Hi) as (o & Ho & _). now exists o. }
  exists r, w'. split; [exact Hrun|].
  apply run_workload_Ok_inv in Hrun. destruct Hrun as (_ & outs & Hperm & -> & _).
  assert (Hall : filter success outs = outs).
  { apply filter_all. intros o Ho.
    destruct (outs_are_call_outcomes _ _ _ _ _ _ _ Hperm Ho) as (i & Hi & Hcall).
    destruct (Hok i Hi) as (o' & Ho' & Hs). congruence. }
  destruct (summary_counts _ _ _ _ _ _ Hperm) as [Hlen _].
  cbn [summary_of success_rate latencies]. rewrite length_map, Hall, Hlen.
  rewrite Z2Nat.id by lia. split; [|reflexivity].
  field. intros Hz. unfold Qeq in Hz. cbn in Hz. lia.
Qed.

Lemma all_success_summary_witness :
  exists r w',
    run_workload CONFIG all_ok 10 100 world0 = (Ok r, w') /\
    (success_rate r == 1)%Q /\
    Z.of_nat (List.length (latencies r)) = 10.
Proof.
  apply (all_success_summary CONFIG all_ok 10 100 world0).
  - lia.
  - intros i _. eexists. split; reflexivity.
Defined.

(** X15. In a summary, the latencies are empty exactly when the
    [success_rate] is 0: a level shows in the latency plot if and only if
    some call of it succeeded. *)
Theorem latencies_empty_iff_rate_zero cfg env num n w r w' :
  run_workload cfg env num n w = (Ok r, w') ->
  (latencies r = [] <-> (success_rate r == 0)%Q).
Proof.
  intros Hrun. apply run_workload_Ok_inv in Hrun.
  destruct Hrun as (Hnum & outs & _ & -> & _).
  cbn [summary_of success_rate latencies].
  assert (Hnz : ~ (inject_Z num == 0)%Q).
  { intros Hz. unfold Qeq in Hz. cbn in Hz. lia. }
  split.
  - intros H. apply map_eq_nil in H. rewrite H. cbn [List.length Z.of_nat].
    unfold Qdiv. change (inject_Z 0) with 0%Q. ring.
  - intros H. destruct (filter success outs) as [|o l]; [reflexivity|].
    exfalso. pose proof (length_pos_Q o l) as Hpos.
    assert (Hz : (inject_Z (Z.of_nat (List.length (o :: l))) == 0)%Q).
    { rewrite <- (Qmult_0_l (inject_Z num)), <- H. field. exact Hnz. }
    rewrite Hz in Hpos. discriminate.
Qed.

Lemma latencies_empty_iff_rate_zero_witness :
  exists r w',
    run_workload CONFIG mixed 6 100000 world0 = (Ok r, w') /\
    (latencies r = [] <-> (success_rate r == 0)%Q).
Proof.
  eexists; eexists. split; [vm_compute; reflexivity|].
  eapply (latencies_empty_iff_rate_zero CONFIG mixed 6 100000 world0).
  vm_compute. reflexivity.
Defined.

(** ** Extras on the plots and the sweep *)

(** X16. [create_and_display_plots] computes its speedups for any list of
    summaries without a zero [total_time], the empty list included (no
    [results[0]] is read then), and with a library that draws it then
    returns; a summary with a zero [total_time] makes the speedups, and with
    them the function, raise [ZeroDivisionError]. *)
Theorem plots_need_nonzero_total_time plt (results : list WorkloadResult) (w : World) :
  (Forall (fun r => ~ (total_time r == 0)%Q) results ->
   (exists l, speedups_of results w = (Ok l, w)) /\
   (draws plt -> create_and_display_plots plt results w = (Ok tt, w))) /\
  (Exists (fun r => (total_time r == 0)%Q) results ->
   exists e,
     exc_class e = ZeroDivisionError /\
     speedups_of results w = (Raise e, w) /\
     (draws plt -> create_and_display_plots plt results w = (Raise e, w))).
Proof.
  split.
  - intros Hall. destruct (speedups_of_Ok results w Hall) as [l Hl].
    split; [now exists l|]. intros Hd.
    rewrite (create_and_display_plots_eq plt results w Hd), Hl. reflexivity.
  - intros Hex. destruct (speedups_of_Raise results w Hex) as (e & He & Hcls).
    exists e. split; [exact Hcls|]. split; [exact He|]. intros Hd.
    rewrite (create_and_display_plots_eq plt results w Hd), He. reflexivity.
Qed.


(** The requests of a batch, by its size and the budget. *)
Lemma after_batch_requests cfg be n w N :
  1 <= MAX_RETRIES cfg ->
  Z.of_nat N
  <= Z.of_nat (requests (after_batch w (map (future_of cfg be n (now w)) (seq 0 N))))
     - Z.of_nat (requests w)
  <= Z.of_nat N * MAX_RETRIES cfg.
Proof.
  intros Hmax. cbn [after_batch requests].
  set (futures := map (future_of cfg be n (now w)) (seq 0 N)).
  assert (Hb : forall f, In f futures ->
                 (1 <= gets f <= Z.to_nat (MAX_RETRIES cfg))%nat).
  { intros f Hf. apply in_map_iff in Hf. destruct Hf as (i & <- & _).
    now apply gets_bound. }
  pose proof (list_sum_bounds gets 1 (Z.to_nat (MAX_RETRIES cfg)) futures Hb) as Hsum.
  assert (Hlen : List.length futures = N)
    by (unfold futures; now rewrite length_map, length_seq).
  rewrite Hlen in Hsum. nia.
Qed.

(** A batch that returns had a budget. *)
Lemma run_workload_Ok_budget cfg env num n w r w' :
  run_workload cfg env num n w = (Ok r, w') -> 1 <= MAX_RETRIES cfg.
Proof.
  intros Hrun. apply run_workload_Ok_inv in Hrun.
  destruct Hrun as (Hnum & outs & Hperm & _).
  destruct (call_outcomes_are_outs _ _ _ _ _ _ 0%nat Hperm ltac:(lia)) as (o & _ & Ho).
  unfold call_outcome in Ho.
  destruct (send_request cfg (call_env (env (pools w)) 0) n (TIMEOUT cfg)
              (fresh_thread (now w))) as [res t'] eqn:E.
  cbn [fst] in Ho. subst res. eapply send_request_Some_budget; eauto.
Qed.

(** What a sweep that returns has done. *)
Lemma main_loop_Ok_inv cfg env counts : forall acc w rs w',
  main_loop cfg env counts acc w = (Ok rs, w') ->
  exists new,
    rs = (acc ++ new)%list /\
    map request_count new = counts /\
    Forall (fun c => 1 <= c) counts /\
    (counts <> [] -> 1 <= MAX_RETRIES cfg) /\
    pools w' = (pools w + List.length counts)%nat /\
    Zsum counts <= Z.of_nat (requests w') - Z.of_nat (requests w)
    <= Zsum counts * MAX_RETRIES cfg.
Proof.
  induction counts as [|c counts IH]; intros acc w rs w' H; cbn [main_loop] in H.
  - inversion H; subst. exists []. rewrite app_nil_r. cbn.
    repeat split; auto; try lia. intros Hne. contradiction.
  - apply bind_inv_Ok in H. destruct H as (r & w1 & Hrun & Hloop).
    destruct (IH _ _ _ _ Hloop) as (new & -> & Hmap & Hall & _ & Hpools & Hreq).
    pose proof (run_workload_Ok_budget _ _ _ _ _ _ _ Hrun) as Hmax.
    pose proof Hrun as Hinv. apply run_workload_Ok_inv in Hinv.
    destruct Hinv as (Hc & outs & _ & Hr & Hw1).
    exists (r :: new). rewrite <- app_assoc. cbn [app map List.length Zsum fold_right].
    fold (Zsum counts).
    pose proof (after_batch_requests cfg (env (pools w)) (DEFAULT_N_VALUE cfg) w
                  (Z.to_nat c) Hmax) as Hb.
    rewrite <- Hw1 in Hb. rewrite Z2Nat.id in Hb by lia.
    assert (Hp1 : pools w1 = S (pools w)) by now rewrite Hw1.
    split; [reflexivity|]. split; [f_equal; [now rewrite Hr|exact Hmap]|].
    split; [now constructor|]. split; [auto|]. split; [lia|]. nia.
Qed.

(** X17. If [main] returns, the configuration was fit for it and the sweep did
    what it says: every level was at least 1 and, unless there was no level,
    [MAX_RETRIES] was at least 1; there is one summary for each level, in the
    order of [REQUEST_COUNTS]; one worker pool was created for each level; and
    the number of requests sent lies between the sum of the levels and that
    sum times [MAX_RETRIES]. *)
Theorem main_returns_only_after_full_sweep cfg env plt w rs w' :
  main cfg env plt w = (Ok rs, w') ->
  map request_count rs = REQUEST_COUNTS cfg /\
  Forall (fun c => 1 <= c) (REQUEST_COUNTS cfg) /\
  (REQUEST_COUNTS cfg <> [] -> 1 <= MAX_RETRIES cfg) /\
  pools w' = (pools w + List.length (REQUEST_COUNTS cfg))%nat /\
  Zsum (REQUEST_COUNTS cfg) <= Z.of_nat (requests w') - Z.of_nat (requests w)
  <= Zsum (REQUEST_COUNTS cfg) * MAX_RETRIES cfg.
Proof.
  unfold main. intros H.
  apply bind_inv_Ok in H. destruct H as (rs' & w1 & Hloop & H).
  apply bind_inv_Ok in H. destruct H as ([] & w2 & Hplots & H).
  inversion H; subst. apply create_and_display_plots_state in Hplots. subst w1.
  destruct (main_loop_Ok_inv _ _ _ _ _ _ _ Hloop) as (new & -> & Hrest).
  exact Hrest.
Qed.

Lemma main_returns_only_after_full_sweep_witness :
  exists rs w',
    main (mkConfig "http://10.0.0.1:5000" 100 [1; 4; 2] 30 3) mixed screen world0
    = (Ok rs, w') /\
    map request_count rs = [1; 4; 2] /\
    Forall (fun c => 1 <= c) [1; 4; 2] /\
    ([1; 4; 2] <> [] -> 1 <= 3) /\
    pools w' = (pools world0 + List.length [1; 4; 2])%nat /\
    Zsum [1; 4; 2] <= Z.of_nat (requests w') - Z.of_nat (requests world0)
    <= Zsum [1; 4; 2] * 3.
Proof.
  assert (H : exists rs w',
             main (mkConfig "http://10.0.0.1:5000" 100 [1; 4; 2] 30 3) mixed screen world0
             = (Ok rs, w'))
    by (eexists; eexists; vm_compute; reflexivity).
  destruct H as (rs & w' & H). exists rs, w'. split; [exact H|].
  exact (main_returns_only_after_full_sweep
           (mkConfig "http://10.0.0.1:5000" 100 [1; 4; 2] 30 3) mixed screen world0 rs w' H).
Defined.




(** * The coordinator *)

(** ** The sweep, when the configuration is bad *)









(** ** The claims on the coordinator *)


Lemma all_fail_total_failure cfg : total_failure cfg all_fail.
Proof. intros k i n j. exists refused. apply always_fail_fails. Qed.




